(** * diffusers-sana: the DC-AE checkpoint converter and the Sana transformer

    A shallow embedding of

    - [scripts/convert_dcae_to_diffusers.py]: unwrapping of a loaded
      checkpoint ([get_state_dict]), the key rename pass driven by
      [VAE_KEYS_RENAME_DICT], the special-key pass driven by
      [VAE_SPECIAL_KEYS_REMAP], the preset table [get_vae_config] and the
      command line of the script;
    - [src/diffusers/models/transformers/sana_transformer.py]: the gated
      residual branches of [SanaTransformerBlock.forward] and the attention
      mask preparation of [SanaTransformer2DModel.forward]; further on, the
      attention processors of the model ([attn_processors],
      [set_attn_processor]), the tensor layout of [SanaGLUMBConv.forward]
      and of the unpatchify step, and the attributes a block is built with.

    Python dictionaries are insertion ordered, and the two passes of
    [convert_vae] iterate over a snapshot of the keys while they pop and
    insert entries, so a dictionary is an association list in insertion
    order.  A raised exception is a value of [result]. *)

From Stdlib Require Import String Ascii List Bool Arith ZArith Lia Permutation.
From Stdlib Require Import Floats.SpecFloat.
Import ListNotations.

Set Warnings "-register-all".


Local Open Scope string_scope.
Local Open Scope list_scope.

(** ** Python strings: [in] and [str.replace] *)

Module PyStr.

(** [s[n:]] *)
Fixpoint drop (n : nat) (s : string) : string :=
  match n, s with
  | O, _ => s
  | S _, EmptyString => EmptyString
  | S k, String _ s' => drop k s'
  end.

(** [sub in s]: [sub] occurs in [s] at some position. *)
Fixpoint contains (sub s : string) : bool :=
  prefix sub s ||
  match s with
  | EmptyString => false
  | String _ s' => contains sub s'
  end.

(** The scan of [str.replace] for a non-empty pattern: occurrences are
    found from the left and do not overlap; [skip] counts the characters of
    the occurrence just replaced that are still to be passed over. *)
Fixpoint replace_from (old new : string) (skip : nat) (s : string) : string :=
  match s with
  | EmptyString => EmptyString
  | String c s' =>
      match skip with
      | S k => replace_from old new k s'
      | O =>
          if prefix old s
          then (new ++ replace_from old new (String.length old - 1) s')%string
          else String c (replace_from old new 0 s')
      end
  end.

(** [s.replace("", new)]: the empty pattern occurs before every character
    and at the end. *)
Fixpoint interleave (new s : string) : string :=
  match s with
  | EmptyString => new
  | String c s' => (new ++ String c (interleave new s'))%string
  end.

(** [s.replace(old, new)], every occurrence. *)
Definition replace (old new s : string) : string :=
  match old with
  | EmptyString => interleave new s
  | String _ _ => replace_from old new 0 s
  end.

(** [k in l] for a list of strings. *)
Fixpoint mem (k : string) (l : list string) : bool :=
  match l with
  | [] => false
  | k' :: l' => String.eqb k k' || mem k l'
  end.

(** No string occurs twice in [l]. *)
Fixpoint distinct (l : list string) : bool :=
  match l with
  | [] => true
  | k :: l' => negb (mem k l') && distinct l'
  end.

End PyStr.

(** ** Exceptions *)

Inductive py_error : Type :=
| KeyError (key : string)
| NotAMapping
| UnboundLocalError (var : string).

Inductive result (A : Type) : Type :=
| Ok (a : A)
| Raise (e : py_error).

Arguments Ok {A} a.
Arguments Raise {A} e.

Definition bind {A B : Type} (r : result A) (k : A -> result B) : result B :=
  match r with
  | Ok a => k a
  | Raise e => Raise e
  end.

Notation "x <- r ;; k" := (bind r (fun x => k))
  (at level 61, r at next level, right associativity).
Notation "' p <- r ;; k" := (bind r (fun p => k))
  (at level 61, p pattern, r at next level, right associativity).

(** ** Python dictionaries with string keys *)

Module PyDict.

Import PyStr.

Definition dict (V : Type) : Type := list (string * V).

Section Ops.
Context {V : Type}.

(** [list(d.keys())] *)
Definition keys (d : dict V) : list string := map fst d.

(** [list(d.values())] *)
Definition values (d : dict V) : list V := map snd d.

Fixpoint lookup (k : string) (d : dict V) : option V :=
  match d with
  | [] => None
  | (k', v) :: d' => if String.eqb k k' then Some v else lookup k d'
  end.

(** [k in d.keys()] *)
Definition contains_key (k : string) (d : dict V) : bool :=
  match lookup k d with
  | Some _ => true
  | None => false
  end.

(** [d[k]] *)
Definition getitem (k : string) (d : dict V) : result V :=
  match lookup k d with
  | Some v => Ok v
  | None => Raise (KeyError k)
  end.

(** [d.pop(k)]: the value and the dictionary without the entry. *)
Fixpoint pop (k : string) (d : dict V) : result (V * dict V) :=
  match d with
  | [] => Raise (KeyError k)
  | (k', v) :: d' =>
      if String.eqb k k' then Ok (v, d')
      else '(x, r) <- pop k d' ;; Ok (x, (k', v) :: r)
  end.

(** [d[k] = v]: an existing key keeps its place, a new key goes last. *)
Fixpoint setitem (k : string) (v : V) (d : dict V) : dict V :=
  match d with
  | [] => [(k, v)]
  | (k', v') :: d' =>
      if String.eqb k k' then (k', v) :: d' else (k', v') :: setitem k v d'
  end.

(** A dictionary never holds a key twice. *)
Definition well_formed (d : dict V) : bool := distinct (keys d).

End Ops.

End PyDict.

Import PyStr PyDict.

(** ** scripts/convert_dcae_to_diffusers.py *)

Module Convert.

(** What a loaded checkpoint holds ([Dict[str, Any]]): tensors, and
    mappings that wrap further values. *)
Inductive value (T : Type) : Type :=
| Tensor (t : T)
| Dict (d : list (string * value T)).

Arguments Tensor {T} t.
Arguments Dict {T} d.

Section StateDict.
Context {V : Type}.

Definition remove_keys_ (key : string) (state_dict : dict V) : result (dict V) :=
  '(_, d) <- pop key state_dict ;; Ok d.

Definition remap_qkv_ (key : string) (state_dict : dict V) : result (dict V) :=
  '(v, d) <- pop key state_dict ;;
  Ok (setitem (replace "qkv.conv" "to_qkv" key) v d).

Definition update_state_dict_ (state_dict : dict V) (old_key new_key : string)
  : result (dict V) :=
  '(v, d) <- pop old_key state_dict ;;
  Ok (setitem new_key v d).

End StateDict.

Definition VAE_KEYS_RENAME_DICT : list (string * string) :=
  [ ("main.", "");
    ("op_list.", "");
    ("context_module", "attn");
    ("local_module", "conv_out");
    ("aggreg.0.0", "to_qkv_multiscale.0.proj_in");
    ("aggreg.0.1", "to_qkv_multiscale.0.proj_out");
    ("norm.", "norm.norm.");
    ("depth_conv.conv", "conv_depth");
    ("inverted_conv.conv", "conv_inverted");
    ("point_conv.conv", "conv_point");
    ("point_conv.norm", "norm");
    ("conv.conv.", "conv.");
    ("conv1.conv", "conv1");
    ("conv2.conv", "conv2");
    ("conv2.norm", "norm");
    ("proj.conv", "proj_out");
    ("proj.norm", "norm_out");
    ("encoder.project_in.conv", "encoder.conv_in");
    ("encoder.project_out.0.conv", "encoder.conv_out");
    ("decoder.project_in.conv", "decoder.conv_in");
    ("decoder.project_out.0", "decoder.norm_out.norm");
    ("decoder.project_out.2.conv", "decoder.conv_out") ].

Definition VAE_SPECIAL_KEYS_REMAP {V : Type}
  : list (string * (string -> dict V -> result (dict V))) :=
  [ ("qkv.conv.weight", remap_qkv_) ].

(** [state_dict[k]] on a value that may or may not be a mapping. *)
Definition subscript {T : Type} (state_dict : value T) (k : string) : result (value T) :=
  match state_dict with
  | Dict d => getitem k d
  | Tensor _ => Raise NotAMapping
  end.

Definition get_state_dict {T : Type} (saved_dict : dict (value T)) : result (value T) :=
  let state_dict := Dict saved_dict in
  state_dict <- (if contains_key "model" saved_dict
                 then subscript state_dict "model" else Ok state_dict) ;;
  state_dict <- (if contains_key "module" saved_dict
                 then subscript state_dict "module" else Ok state_dict) ;;
  state_dict <- (if contains_key "state_dict" saved_dict
                 then subscript state_dict "state_dict" else Ok state_dict) ;;
  Ok state_dict.

(** The inner loop of the rename pass: every rule of the table, in the
    order of the table, on the key so far. *)
Fixpoint apply_rules (rules : list (string * string)) (new_key : string) : string :=
  match rules with
  | [] => new_key
  | (replace_key, rename_key) :: rest =>
      apply_rules rest (replace replace_key rename_key new_key)
  end.

Definition rename_key (key : string) : string :=
  apply_rules VAE_KEYS_RENAME_DICT key.

Section Passes.
Context {V : Type}.

(** [for key in list(original_state_dict.keys()): ...], first loop. *)
Fixpoint rename_loop (ks : list string) (state_dict : dict V) : result (dict V) :=
  match ks with
  | [] => Ok state_dict
  | key :: ks' =>
      d <- update_state_dict_ state_dict key (rename_key key) ;;
      rename_loop ks' d
  end.

Definition rename_pass (state_dict : dict V) : result (dict V) :=
  rename_loop (keys state_dict) state_dict.

(** The inner loop of the second pass, over the handlers. *)
Fixpoint apply_handlers
  (handlers : list (string * (string -> dict V -> result (dict V))))
  (key : string) (state_dict : dict V) : result (dict V) :=
  match handlers with
  | [] => Ok state_dict
  | (special_key, handler_fn_inplace) :: rest =>
      if negb (contains special_key key)
      then apply_handlers rest key state_dict
      else d <- handler_fn_inplace key state_dict ;;
           apply_handlers rest key d
  end.

Fixpoint special_loop (ks : list string) (state_dict : dict V) : result (dict V) :=
  match ks with
  | [] => Ok state_dict
  | key :: ks' =>
      d <- apply_handlers VAE_SPECIAL_KEYS_REMAP key state_dict ;;
      special_loop ks' d
  end.

Definition special_pass (state_dict : dict V) : result (dict V) :=
  special_loop (keys state_dict) state_dict.

(** The two passes of [convert_vae], one after the other. *)
Definition remap_keys (state_dict : dict V) : result (dict V) :=
  d <- rename_pass state_dict ;;
  special_pass d.

End Passes.

(** [.keys()] of what [get_state_dict] returned. *)
Definition as_dict {T : Type} (v : value T) : result (dict (value T)) :=
  match v with
  | Dict d => Ok d
  | Tensor _ => Raise NotAMapping
  end.

(** [convert_vae] up to the mapping handed to [load_state_dict]. *)
Definition convert_vae {T : Type} (loaded : dict (value T)) : result (dict (value T)) :=
  v <- get_state_dict loaded ;;
  original_state_dict <- as_dict v ;;
  remap_keys original_state_dict.

(** *** The preset table *)

(** The Python values a configuration holds.  A float literal is kept as
    written: [PFloat m e] is the literal [m]e[e], so [0.41407] is
    [PFloat 41407 (-5)]. *)
Inductive pyval : Type :=
| PInt (n : Z)
| PFloat (m : Z) (e : Z)
| PStr (s : string)
| PTuple (l : list pyval)
| PList (l : list pyval).

Definition ints (l : list Z) : list pyval := map PInt l.
Definition strs (l : list string) : list pyval := map PStr l.

(** [((), ..., ())] or [((), (), (), (5,), (5,), (5,))] *)
Definition scales (l : list (list Z)) : pyval :=
  PTuple (map (fun t => PTuple (ints t)) l).

Definition config_f32c32_sana : dict pyval :=
  [ ("latent_channels", PInt 32);
    ("encoder_block_types",
      PTuple (strs ["ResBlock"; "ResBlock"; "ResBlock"; "EViTS5_GLU"; "EViTS5_GLU"; "EViTS5_GLU"]));
    ("decoder_block_types",
      PTuple (strs ["ResBlock"; "ResBlock"; "ResBlock"; "EViTS5_GLU"; "EViTS5_GLU"; "EViTS5_GLU"]));
    ("block_out_channels", PTuple (ints [128; 256; 512; 512; 1024; 1024]%Z));
    ("encoder_qkv_multiscales", scales [[]; []; []; [5]; [5]; [5]]%Z);
    ("decoder_qkv_multiscales", scales [[]; []; []; [5]; [5]; [5]]%Z);
    ("encoder_layers_per_block", PTuple (ints [2; 2; 2; 3; 3; 3]%Z));
    ("decoder_layers_per_block", PList (ints [3; 3; 3; 3; 3; 3]%Z));
    ("downsample_block_type", PStr "Conv");
    ("upsample_block_type", PStr "interpolate");
    ("scaling_factor", PFloat 41407 (-5)) ].

Definition config_f32c32 : dict pyval :=
  [ ("latent_channels", PInt 32);
    ("encoder_block_types",
      PList (strs ["ResBlock"; "ResBlock"; "ResBlock";
                   "EfficientViTBlock"; "EfficientViTBlock"; "EfficientViTBlock"]));
    ("decoder_block_types",
      PList (strs ["ResBlock"; "ResBlock"; "ResBlock";
                   "EfficientViTBlock"; "EfficientViTBlock"; "EfficientViTBlock"]));
    ("block_out_channels", PList (ints [128; 256; 512; 512; 1024; 1024]%Z));
    ("encoder_layers_per_block", PList (ints [0; 4; 8; 2; 2; 2]%Z));
    ("decoder_layers_per_block", PList (ints [0; 5; 10; 2; 2; 2]%Z));
    ("encoder_qkv_multiscales", scales [[]; []; []; []; []; []]);
    ("decoder_qkv_multiscales", scales [[]; []; []; []; []; []]);
    ("decoder_norm_types",
      PList (strs ["batch_norm"; "batch_norm"; "batch_norm"; "rms_norm"; "rms_norm"; "rms_norm"]));
    ("decoder_act_fns", PList (strs ["relu"; "relu"; "relu"; "silu"; "silu"; "silu"])) ].

Definition config_f128c512 : dict pyval :=
  [ ("latent_channels", PInt 512);
    ("encoder_block_types",
      PList (strs ["ResBlock"; "ResBlock"; "ResBlock";
                   "EfficientViTBlock"; "EfficientViTBlock"; "EfficientViTBlock";
                   "EfficientViTBlock"; "EfficientViTBlock"]));
    ("decoder_block_types",
      PList (strs ["ResBlock"; "ResBlock"; "ResBlock";
                   "EfficientViTBlock"; "EfficientViTBlock"; "EfficientViTBlock";
                   "EfficientViTBlock"; "EfficientViTBlock"]));
    ("block_out_channels", PList (ints [128; 256; 512; 512; 1024; 1024; 2048; 2048]%Z));
    ("encoder_layers_per_block", PList (ints [0; 4; 8; 2; 2; 2; 2; 2]%Z));
    ("decoder_layers_per_block", PList (ints [0; 5; 10; 2; 2; 2; 2; 2]%Z));
    ("encoder_qkv_multiscales", scales [[]; []; []; []; []; []; []; []]);
    ("decoder_qkv_multiscales", scales [[]; []; []; []; []; []; []; []]);
    ("decoder_norm_types",
      PList (strs ["batch_norm"; "batch_norm"; "batch_norm";
                   "rms_norm"; "rms_norm"; "rms_norm"; "rms_norm"; "rms_norm"]));
    ("decoder_act_fns",
      PList (strs ["relu"; "relu"; "relu"; "silu"; "silu"; "silu"; "silu"; "silu"])) ].

Definition config_f64c128 : dict pyval :=
  [ ("latent_channels", PInt 128);
    ("encoder_block_types",
      PList (strs ["ResBlock"; "ResBlock"; "ResBlock";
                   "EfficientViTBlock"; "EfficientViTBlock"; "EfficientViTBlock";
                   "EfficientViTBlock"]));
    ("decoder_block_types",
      PList (strs ["ResBlock"; "ResBlock"; "ResBlock";
                   "EfficientViTBlock"; "EfficientViTBlock"; "EfficientViTBlock";
                   "EfficientViTBlock"]));
    ("block_out_channels", PList (ints [128; 256; 512; 512; 1024; 1024; 2048]%Z));
    ("encoder_layers_per_block", PList (ints [0; 4; 8; 2; 2; 2; 2]%Z));
    ("decoder_layers_per_block", PList (ints [0; 5; 10; 2; 2; 2; 2]%Z));
    ("encoder_qkv_multiscales", scales [[]; []; []; []; []; []; []]);
    ("decoder_qkv_multiscales", scales [[]; []; []; []; []; []; []]);
    ("decoder_norm_types",
      PList (strs ["batch_norm"; "batch_norm"; "batch_norm";
                   "rms_norm"; "rms_norm"; "rms_norm"; "rms_norm"]));
    ("decoder_act_fns",
      PList (strs ["relu"; "relu"; "relu"; "silu"; "silu"; "silu"; "silu"])) ].

(** [config] is bound in the branches only: a name that matches none of
    them reaches [return config] with the variable unbound. *)
Definition get_vae_config (name : string) : result (dict pyval) :=
  if mem name ["dc-ae-f32c32-sana-1.0"] then Ok config_f32c32_sana
  else if mem name ["dc-ae-f32c32-in-1.0"; "dc-ae-f32c32-mix-1.0"] then Ok config_f32c32
  else if mem name ["dc-ae-f128c512-in-1.0"; "dc-ae-f128c512-mix-1.0"] then Ok config_f128c512
  else if mem name ["dc-ae-f64c128-in-1.0"; "dc-ae-f64c128-mix-1.0"] then Ok config_f64c128
  else Raise (UnboundLocalError "config").

End Convert.

(** ** src/diffusers/models/transformers/sana_transformer.py *)

Module Sana.

(** *** Tensor elements

    The floating dtypes of torch, as IEEE 754 binary formats: the number of
    significand bits and the exponent of the infinities.  An element is a
    [spec_float], and the operations are those of the format (each result
    rounded once, to nearest, ties to even).  The tensors of one computation
    share their dtype.  Where a tensor of a 16-bit dtype meets a Python
    number, or is converted from another type, torch computes in float32 and
    rounds the result to the dtype ([opmath] below). *)
Inductive dtype : Type := float16 | bfloat16 | float32 | float64.

Definition prec (dt : dtype) : Z :=
  match dt with
  | float16 => 11
  | bfloat16 => 8
  | float32 => 24
  | float64 => 53
  end.

Definition emax (dt : dtype) : Z :=
  match dt with
  | float16 => 16
  | bfloat16 => 128
  | float32 => 128
  | float64 => 1024
  end.

Definition fadd (dt : dtype) : spec_float -> spec_float -> spec_float :=
  SFadd (prec dt) (emax dt).
Definition fsub (dt : dtype) : spec_float -> spec_float -> spec_float :=
  SFsub (prec dt) (emax dt).
Definition fmul (dt : dtype) : spec_float -> spec_float -> spec_float :=
  SFmul (prec dt) (emax dt).

(** A Python [int] as an element of dtype [dt]. *)
Definition of_int (dt : dtype) (n : Z) : spec_float :=
  binary_normalize (prec dt) (emax dt) n 0 false.

(** A float of any format as an element of dtype [dt] (round to nearest,
    ties to even). *)
Definition round_to (dt : dtype) (x : spec_float) : spec_float :=
  match x with
  | S754_finite s m e => binary_round (prec dt) (emax dt) s m e
  | _ => x
  end.

(** The Python float literal [-10000.0], a binary64. *)
Definition neg_10000 : spec_float := of_int float64 (-10000).

Definition is_zero (x : spec_float) : bool :=
  match x with
  | S754_zero _ => true
  | _ => false
  end.

(** Neither an infinity nor a NaN. *)
Definition is_finite (x : spec_float) : bool :=
  match x with
  | S754_zero _ | S754_finite _ _ _ => true
  | S754_infinity _ | S754_nan => false
  end.

(** [x] is the integer [n]. *)
Definition is_integer (x : spec_float) (n : Z) : bool :=
  match x with
  | S754_zero _ => Z.eqb n 0
  | S754_finite s m e =>
      let v := if s then Z.neg m else Z.pos m in
      if Z.leb 0 e then Z.eqb (v * 2 ^ e) n else Z.eqb v (n * 2 ^ (- e))
  | S754_infinity _ | S754_nan => false
  end.

(** *** SanaTransformerBlock

    Inside a block the hidden states have three axes (batch, token,
    channel) and are read through their indexing function.  The six
    modulation chunks have extent 1 on the token axis, and broadcasting
    reads them at token 0. *)
Definition tensor3 : Type := nat -> nat -> nat -> spec_float.
Definition tensor2 : Type := nat -> nat -> spec_float.

(** A mask keeps its shape, since [forward] of the model looks at its
    rank; its elements are integers (or booleans, 0 and 1) or floats. *)
Inductive scalar : Type :=
| Int (n : Z)
| Float (x : spec_float).

Record tensor (E : Type) : Type := { shape : list nat; data : list E }.

Arguments shape {E} t.
Arguments data {E} t.

Section Block.
Variable dt : dtype.
(** [dim], the number of channels. *)
Variable dim : nat.
(** The parameter [scale_shift_table], of shape [(6, dim)]. *)
Variable scale_shift_table : tensor2.
(** The sub-modules: the layer norms and the attentions are modules of the
    library, and [ff] is [SanaGLUMBConv], whose convolutions are; each is a
    function on the hidden states here.  [attn2] is [None] or a module. *)
Variable norm1 : tensor3 -> tensor3.
Variable attn1 : tensor3 -> tensor3.
Variable attn2 : option (tensor3 -> option tensor3 -> option (tensor scalar) -> tensor3).
Variable norm2 : tensor3 -> tensor3.
Variable ff : tensor3 -> option (nat * nat) -> tensor3.

(** [timestep.reshape(batch_size, 6, -1)], [timestep] of shape
    [(batch_size, 6 * dim)]. *)
Definition reshape_6 (timestep : tensor2) : tensor3 :=
  fun b i c => timestep b (i * dim + c)%nat.

(** [(self.scale_shift_table[None] + ...).chunk(6, dim=1)], chunk [j]. *)
Definition modulation (timestep : tensor2) (j : nat) : tensor3 :=
  fun b i c => fadd dt (scale_shift_table (j + i)%nat c) (reshape_6 timestep b (j + i)%nat c).

Definition shift_msa (timestep : tensor2) : tensor3 := modulation timestep 0.
Definition scale_msa (timestep : tensor2) : tensor3 := modulation timestep 1.
Definition gate_msa (timestep : tensor2) : tensor3 := modulation timestep 2.
Definition shift_mlp (timestep : tensor2) : tensor3 := modulation timestep 3.
Definition scale_mlp (timestep : tensor2) : tensor3 := modulation timestep 4.
Definition gate_mlp (timestep : tensor2) : tensor3 := modulation timestep 5.

(** [norm_hidden_states * (1 + scale) + shift] *)
Definition modulate (norm_hidden_states scale shift : tensor3) : tensor3 :=
  fun b n c =>
    fadd dt (fmul dt (norm_hidden_states b n c) (fadd dt (of_int dt 1) (scale b 0%nat c)))
         (shift b 0%nat c).

(** [hidden_states + gate * output] *)
Definition gated_residual (hidden_states gate output : tensor3) : tensor3 :=
  fun b n c => fadd dt (hidden_states b n c) (fmul dt (gate b 0%nat c) (output b n c)).

(** 2. Self Attention *)
Definition attn_output (hidden_states : tensor3) (timestep : tensor2) : tensor3 :=
  attn1 (modulate (norm1 hidden_states) (scale_msa timestep) (shift_msa timestep)).

Definition self_attention (hidden_states : tensor3) (timestep : tensor2) : tensor3 :=
  gated_residual hidden_states (gate_msa timestep) (attn_output hidden_states timestep).

(** 3. Cross Attention *)
Definition cross_attention (hidden_states : tensor3)
  (encoder_hidden_states : option tensor3)
  (encoder_attention_mask : option (tensor scalar)) : tensor3 :=
  match attn2 with
  | Some attn =>
      fun b n c =>
        fadd dt (attn hidden_states encoder_hidden_states encoder_attention_mask b n c)
             (hidden_states b n c)
  | None => hidden_states
  end.

(** 4. Feed-forward *)
Definition ff_output (hidden_states : tensor3) (timestep : tensor2)
  (HW : option (nat * nat)) : tensor3 :=
  ff (modulate (norm2 hidden_states) (scale_mlp timestep) (shift_mlp timestep)) HW.

Definition feed_forward (hidden_states : tensor3) (timestep : tensor2)
  (HW : option (nat * nat)) : tensor3 :=
  gated_residual hidden_states (gate_mlp timestep) (ff_output hidden_states timestep HW).

Definition forward (hidden_states : tensor3)
  (attention_mask : option (tensor scalar))
  (encoder_hidden_states : option tensor3)
  (encoder_attention_mask : option (tensor scalar))
  (timestep : tensor2) (HW : option (nat * nat)) : tensor3 :=
  let hidden_states := self_attention hidden_states timestep in
  let hidden_states :=
    cross_attention hidden_states encoder_hidden_states encoder_attention_mask in
  feed_forward hidden_states timestep HW.

(** The two gated branches, each with its gate, the output it gates and the
    residual stream it leaves; [forward] is one after the other, with the
    cross attention in between. *)
Inductive gated_branch : Type := SelfAttention | FeedForward.

Definition branch_gate (br : gated_branch) (timestep : tensor2) : tensor3 :=
  match br with
  | SelfAttention => gate_msa timestep
  | FeedForward => gate_mlp timestep
  end.

Definition branch_output (br : gated_branch) (hidden_states : tensor3)
  (timestep : tensor2) (HW : option (nat * nat)) : tensor3 :=
  match br with
  | SelfAttention => attn_output hidden_states timestep
  | FeedForward => ff_output hidden_states timestep HW
  end.

Definition branch (br : gated_branch) (hidden_states : tensor3)
  (timestep : tensor2) (HW : option (nat * nat)) : tensor3 :=
  match br with
  | SelfAttention => self_attention hidden_states timestep
  | FeedForward => feed_forward hidden_states timestep HW
  end.

End Block.

(** *** SanaTransformer2DModel.forward: the attention masks *)

Definition ndim {E : Type} (t : tensor E) : nat := length (shape t).

Definition map_tensor {E E' : Type} (f : E -> E') (t : tensor E) : tensor E' :=
  {| shape := shape t; data := map f (data t) |}.

(** The type torch computes in for elements of dtype [dt]: float32 for
    the two 16-bit dtypes, the dtype itself otherwise. *)
Definition opmath (dt : dtype) : dtype :=
  match dt with
  | float16 | bfloat16 => float32
  | float32 => float32
  | float64 => float64
  end.

(** [t.to(dtype)]: an element reaches a 16-bit dtype through float32 (the
    16-bit types of torch are built from a [float]), so that an integer or
    a float64 is rounded twice on its way there. *)
Definition to (dt : dtype) (t : tensor scalar) : tensor spec_float :=
  map_tensor (fun s => match s with
                       | Int n => round_to dt (of_int (opmath dt) n)
                       | Float x => round_to dt (round_to (opmath dt) x)
                       end) t.

(** [k - t] for a Python int [k] *)
Definition rsub (dt : dtype) (k : Z) (t : tensor spec_float) : tensor spec_float :=
  map_tensor (fun x => fsub dt (of_int dt k) x) t.

(** [t * x] for a Python float [x]: the number is taken in [opmath dt],
    not in [dt]; the product is computed there and then rounded to [dt]. *)
Definition mul_scalar (dt : dtype) (t : tensor spec_float) (x : spec_float)
  : tensor spec_float :=
  map_tensor (fun y => round_to dt (fmul (opmath dt) (round_to (opmath dt) y)
                                         (round_to (opmath dt) x))) t.

(** [t.unsqueeze(d)]: an axis of extent 1 before axis [d]; the elements
    stay as they are, in the same order. *)
Definition unsqueeze {E : Type} (d : nat) (t : tensor E) : tensor E :=
  {| shape := firstn d (shape t) ++ 1%nat :: skipn d (shape t); data := data t |}.

(** [(1 - mask.to(hidden_states.dtype)) * -10000.0], then [unsqueeze(1)]. *)
Definition mask_to_bias (dt : dtype) (mask : tensor scalar) : tensor scalar :=
  let bias := mul_scalar dt (rsub dt 1 (to dt mask)) neg_10000 in
  map_tensor Float (unsqueeze 1 bias).

(** [if mask is not None and mask.ndim == 2: ...] *)
Definition prepare_mask (dt : dtype) (mask : option (tensor scalar))
  : option (tensor scalar) :=
  match mask with
  | Some t => if Nat.eqb (ndim t) 2 then Some (mask_to_bias dt t) else Some t
  | None => None
  end.

(** The first statements of [forward]: both masks as the blocks get them;
    [dt] is [hidden_states.dtype]. *)
Definition forward_masks (dt : dtype)
  (encoder_attention_mask attention_mask : option (tensor scalar))
  : option (tensor scalar) * option (tensor scalar) :=
  let attention_mask := prepare_mask dt attention_mask in
  let encoder_attention_mask := prepare_mask dt encoder_attention_mask in
  (attention_mask, encoder_attention_mask).

End Sana.

(** ** Notions used by the statements *)

Import Convert.

Module Notions.

(** The unwrap step as the specification words it: each of the three checks
    looks at the scope reached so far and narrows it when the wrapper key
    is there. *)
Definition narrow {T : Type} (k : string) (scope : value T) : value T :=
  match scope with
  | Dict d =>
      match lookup k d with
      | Some v => v
      | None => scope
      end
  | Tensor _ => scope
  end.

Definition unwrap_by_scope {T : Type} (saved_dict : dict (value T)) : value T :=
  narrow "state_dict" (narrow "module" (narrow "model" (Dict saved_dict))).

(** How deep mappings are nested in a value. *)
Fixpoint depth {T : Type} (v : value T) : nat :=
  match v with
  | Tensor _ => 0
  | Dict d =>
      S ((fix depths (l : list (string * value T)) : nat :=
            match l with
            | [] => 0
            | (_, x) :: l' => Nat.max (depth x) (depths l')
            end) d)
  end.

(** The key under which the second pass leaves an entry. *)
Definition special_key (key : string) : string :=
  if contains "qkv.conv.weight" key then replace "qkv.conv" "to_qkv" key else key.

(** The key under which [convert_vae] leaves an entry. *)
Definition final_key (key : string) : string := special_key (rename_key key).

(** Both loops of [convert_vae] have one shape: for each key of the
    snapshot, when [select] holds, the entry moves to the key [f key]. *)
Fixpoint move_loop {V : Type} (select : string -> bool) (f : string -> string)
  (ks : list string) (d : dict V) : result (dict V) :=
  match ks with
  | [] => Ok d
  | k :: ks' =>
      d' <- (if select k then update_state_dict_ d k (f k) else Ok d) ;;
      move_loop select f ks' d'
  end.

(** Where [move_loop] leaves the entry of key [k]. *)
Definition target (select : string -> bool) (f : string -> string) (k : string)
  : string :=
  if select k then f k else k.

(** The entries [move_loop] leaves in place, and those it moves, under
    their new keys. *)
Definition stays {V : Type} (select : string -> bool) (u : dict V) : dict V :=
  filter (fun kv => negb (select (fst kv))) u.

Definition moved {V : Type} (select : string -> bool) (f : string -> string)
  (u : dict V) : dict V :=
  map (fun kv => (f (fst kv), snd kv)) (filter (fun kv => select (fst kv)) u).

(** No entry lands on a key that is in the mapping at that moment: the new
    key [g k] of the entry in turn is neither the new key of an earlier
    entry ([done]) nor the key of an entry still to come. *)
Fixpoint no_clash (g : string -> string) (done todo : list string) : bool :=
  match todo with
  | [] => true
  | k :: rest =>
      negb (mem (g k) done) && negb (mem (g k) rest) && no_clash g (g k :: done) rest
  end.


(** The names [get_vae_config] knows. *)
Definition preset_names : list string :=
  [ "dc-ae-f32c32-sana-1.0";
    "dc-ae-f32c32-in-1.0"; "dc-ae-f32c32-mix-1.0";
    "dc-ae-f128c512-in-1.0"; "dc-ae-f128c512-mix-1.0";
    "dc-ae-f64c128-in-1.0"; "dc-ae-f64c128-mix-1.0" ].

(** The residual stream read at one index after a branch, against the same
    index before it: the same element, where a negative zero may come back
    as the positive zero (the one case in which adding a zero changes the
    bits, not the number). *)
Definition unchanged (after before : spec_float) : Prop :=
  after = before \/ (before = S754_zero true /\ after = S754_zero false).

(** The same float, bit for bit. *)
Definition same_float (x y : spec_float) : bool :=
  match x, y with
  | S754_zero s, S754_zero s' => Bool.eqb s s'
  | S754_infinity s, S754_infinity s' => Bool.eqb s s'
  | S754_nan, S754_nan => true
  | S754_finite s m e, S754_finite s' m' e' =>
      Bool.eqb s s' && Pos.eqb m m' && Z.eqb e e'
  | _, _ => false
  end.

(** A boolean-style mask has the entries 1 (keep) and 0 (discard): as
    integers (or booleans), or as the floats 1.0 and 0.0 of a dtype. *)
Definition keeps (s : Sana.scalar) : bool :=
  match s with
  | Sana.Int n => Z.eqb n 1
  | Sana.Float x =>
      existsb (fun dt => same_float x (Sana.of_int dt 1))
              [Sana.float16; Sana.bfloat16; Sana.float32; Sana.float64]
  end.

Definition discards (s : Sana.scalar) : bool :=
  match s with
  | Sana.Int n => Z.eqb n 0
  | Sana.Float x => Sana.is_zero x
  end.

Definition boolean_style (s : Sana.scalar) : bool := keeps s || discards s.

(** What [(1 - mask.to(dtype)) * -10000.0] makes of one element. *)
Definition bias_of (dt : Sana.dtype) (s : Sana.scalar) : spec_float :=
  Sana.round_to dt
    (Sana.fmul (Sana.opmath dt)
       (Sana.round_to (Sana.opmath dt)
          (Sana.fsub dt (Sana.of_int dt 1)
             (match s with
              | Sana.Int n => Sana.round_to dt (Sana.of_int (Sana.opmath dt) n)
              | Sana.Float x => Sana.round_to dt (Sana.round_to (Sana.opmath dt) x)
              end)))
       (Sana.round_to (Sana.opmath dt) Sana.neg_10000)).

End Notions.

Import Notions.

(** ** scripts/convert_dcae_to_diffusers.py: the command line *)

Module Cli.

Import Convert.

(** What [get_args] returns. *)
Record args : Type :=
  { vae_ckpt_path : option string; output_path : string; dtype : string }.

Definition DTYPE_MAPPING : dict Sana.dtype :=
  [ ("fp32", Sana.float32); ("fp16", Sana.float16); ("bf16", Sana.bfloat16) ].

Definition VARIANT_MAPPING : dict (option string) :=
  [ ("fp32", None); ("fp16", Some "fp16"); ("bf16", Some "bf16") ].

(** The call [vae.save_pretrained(...)] the script ends with: the model,
    the dtype it was built in, and where and under which variant it is
    saved. *)
Record saved (M : Type) : Type :=
  { vae : M;
    torch_dtype : Sana.dtype;
    path : string;
    variant : option string }.

Arguments vae {M} s.
Arguments torch_dtype {M} s.
Arguments path {M} s.
Arguments variant {M} s.

(** How a run of the script ends: with an exception of its own code, with
    the [RuntimeError] of [load_state_dict(..., strict=True)], without
    anything to do, or with a model saved. *)
Inductive run (M : Type) : Type :=
| Raised (e : py_error)
| NotLoaded
| NothingToDo
| Saved (s : saved M).

Arguments Raised {M} e.
Arguments NotLoaded {M}.
Arguments NothingToDo {M}.
Arguments Saved {M} s.

(** The body of [if __name__ == "__main__"], from the parsed arguments on.
    [load_file] reads the checkpoint at a path; [load_state_dict dt d] is
    the model of [convert_vae], built in dtype [dt], after
    [vae.load_state_dict(d, strict=True)], which raises when the keys of
    [d] are not those of the model. *)
Definition main {T M : Type} (load_file : string -> result (dict (value T)))
  (load_state_dict : Sana.dtype -> dict (value T) -> option M) (a : args) : run M :=
  match getitem (dtype a) DTYPE_MAPPING with
  | Raise e => Raised e
  | Ok dt =>
      match getitem (dtype a) VARIANT_MAPPING with
      | Raise e => Raised e
      | Ok var =>
          match vae_ckpt_path a with
          | Some ckpt_path =>
              match (loaded <- load_file ckpt_path ;; convert_vae loaded) with
              | Raise e => Raised e
              | Ok original_state_dict =>
                  match load_state_dict dt original_state_dict with
                  | Some vae =>
                      Saved {| vae := vae; torch_dtype := dt;
                               path := output_path a; variant := var |}
                  | None => NotLoaded
                  end
              end
          | None => NothingToDo
          end
      end
  end.

End Cli.

(** ** sana_transformer.py: the attention processors of a model *)

Module Processors.

(** A module of the model tree.  [processor] is the attention processor of
    a module that has [get_processor] and [set_processor] (an [Attention]),
    and nothing for a module that has neither; [named_children] are the
    direct sub-modules under their names, in the order of registration. *)
Inductive nn_module (P : Type) : Type :=
| NNModule (processor : option P) (named_children : list (string * nn_module P)).

Arguments NNModule {P} processor named_children.

Definition processor {P : Type} (m : nn_module P) : option P :=
  match m with NNModule p _ => p end.

Definition named_children {P : Type} (m : nn_module P) : list (string * nn_module P) :=
  match m with NNModule _ cs => cs end.

(** [fn_recursive_add_processors] of [attn_processors]: the one dictionary
    [processors] is filled on the way down. *)
Fixpoint fn_recursive_add_processors {P : Type} (name : string) (module : nn_module P)
  (processors : dict P) {struct module} : dict P :=
  match module with
  | NNModule proc children =>
      let processors :=
        match proc with
        | Some p => setitem (name ++ ".processor")%string p processors
        | None => processors
        end in
      fold_left
        (fun processors nc =>
           match nc with
           | (sub_name, child) =>
               fn_recursive_add_processors (name ++ "." ++ sub_name)%string child processors
           end)
        children processors
  end.

Definition attn_processors {P : Type} (self : nn_module P) : dict P :=
  fold_left
    (fun processors nm =>
       match nm with
       | (name, module) => fn_recursive_add_processors name module processors
       end)
    (named_children self) [].

(** The argument of [set_attn_processor]: one processor for every layer, or
    a dictionary of processors ([isinstance(processor, dict)]). *)
Inductive processor_arg (P : Type) : Type :=
| Single (p : P)
| Mapping (d : dict P).

Arguments Single {P} p.
Arguments Mapping {P} d.

(** A loop over named children that changes them and threads a state. *)
Fixpoint over_children {A S : Type} (f : string -> A -> S -> result (A * S))
  (cs : list (string * A)) (s : S) : result (list (string * A) * S) :=
  match cs with
  | [] => Ok ([], s)
  | (sub_name, child) :: cs' =>
      '(child', s) <- f sub_name child s ;;
      '(rest, s) <- over_children f cs' s ;;
      Ok ((sub_name, child') :: rest, s)
  end.

(** [fn_recursive_attn_processor] of [set_attn_processor]: the module with
    its processors set, and the argument, from which a dictionary has lost
    the entries popped. *)
Fixpoint fn_recursive_attn_processor {P : Type} (name : string) (module : nn_module P)
  (processor : processor_arg P) {struct module} : result (nn_module P * processor_arg P) :=
  match module with
  | NNModule proc children =>
      '(proc', processor) <-
        match proc with
        | Some _ =>
            match processor with
            | Single p => Ok (Some p, processor)
            | Mapping d =>
                '(p, d') <- pop (name ++ ".processor")%string d ;;
                Ok (Some p, Mapping d')
            end
        | None => Ok (None, processor)
        end ;;
      '(children', processor) <-
        over_children
          (fun sub_name child processor =>
             fn_recursive_attn_processor (name ++ "." ++ sub_name)%string child processor)
          children processor ;;
      Ok (NNModule proc' children', processor)
  end.

(** How [set_attn_processor] ends: it returns, it raises the [ValueError]
    of its length check, or an exception comes out of the recursion. *)
Inductive outcome (A : Type) : Type :=
| Done (a : A)
| ValueError (passed count : nat)
| Failed (e : py_error).

Arguments Done {A} a.
Arguments ValueError {A} passed count.
Arguments Failed {A} e.

Definition set_attn_processor {P : Type} (self : nn_module P) (processor : processor_arg P)
  : outcome (nn_module P * processor_arg P) :=
  let count := length (keys (attn_processors self)) in
  match processor with
  | Mapping d =>
      if negb (Nat.eqb (length d) count) then ValueError (length d) count
      else
        match over_children fn_recursive_attn_processor (named_children self) processor with
        | Ok (children', processor') => Done (NNModule (Processors.processor self) children', processor')
        | Raise e => Failed e
        end
  | Single _ =>
      match over_children fn_recursive_attn_processor (named_children self) processor with
      | Ok (children', processor') => Done (NNModule (Processors.processor self) children', processor')
      | Raise e => Failed e
      end
  end.

(** The attention layers of a module, top down and left to right: the key
    of each in [attn_processors], and its processor. *)
Fixpoint entries {P : Type} (name : string) (module : nn_module P) {struct module}
  : list (string * P) :=
  match module with
  | NNModule proc children =>
      match proc with
      | Some p => [((name ++ ".processor")%string, p)]
      | None => []
      end
      ++ flat_map (fun nc =>
                     match nc with
                     | (sub_name, child) => entries (name ++ "." ++ sub_name)%string child
                     end)
                  children
  end.

Definition entries_of_children {P : Type} (cs : list (string * nn_module P))
  : list (string * P) :=
  flat_map (fun nm => match nm with (name, module) => entries name module end) cs.

(** No two attention layers have the same path (torch keeps the names of
    the children of a module distinct and free of dots). *)
Definition distinct_paths {P : Type} (self : nn_module P) : bool :=
  distinct (keys (entries_of_children (named_children self))).

(** A dictionary without the entries of some keys. *)
Definition without {V : Type} (ks : list string) (d : dict V) : dict V :=
  filter (fun kv => negb (mem (fst kv) ks)) d.

(** [processors[k] = v] for each of a list of entries, in their order. *)
Definition put_all {V : Type} (es : list (string * V)) (processors : dict V) : dict V :=
  fold_left (fun processors kv => setitem (fst kv) (snd kv) processors) es processors.

(** The module with [p] as the processor of every attention layer. *)
Fixpoint fill {P : Type} (p : P) (module : nn_module P) {struct module} : nn_module P :=
  match module with
  | NNModule proc children =>
      NNModule (match proc with Some _ => Some p | None => None end)
               (map (fun nc => match nc with (sub_name, child) => (sub_name, fill p child) end)
                    children)
  end.

(** The first key of a list that a dictionary does not have. *)
Definition first_missing {V : Type} (ks : list string) (d : dict V) : option string :=
  find (fun k => negb (mem k (keys d))) ks.

(** The attention layers of some children, the name of each child put
    through [pre]. *)
Local Abbreviation entries_under pre cs :=
  (flat_map (fun nc => match nc with (sub_name, child) => entries (pre sub_name) child end) cs).

(** What the recursion does to a module, given a dictionary that has the
    paths of its attention layers. *)
Definition takes_from_mapping {P : Type} (pre : string -> string)
  (cs : list (string * nn_module P)) : Prop :=
  forall d : dict P,
    well_formed d = true ->
    distinct (keys (entries_under pre cs)) = true ->
    (forall k, In k (keys (entries_under pre cs)) -> mem k (keys d) = true) ->
    exists cs',
      over_children
        (fun sub_name child processor =>
           fn_recursive_attn_processor (pre sub_name) child processor)
        cs (Mapping d)
      = Ok (cs', Mapping (without (keys (entries_under pre cs)) d))
      /\ keys (entries_under pre cs') = keys (entries_under pre cs)
      /\ (forall k v, In (k, v) (entries_under pre cs') -> lookup k d = Some v)
      /\ ((forall k v, In (k, v) (entries_under pre cs) -> lookup k d = Some v) ->
          cs' = cs).

(** What the recursion does when a path is missing from the dictionary. *)
Definition stops_at_missing {P : Type} (pre : string -> string)
  (cs : list (string * nn_module P)) : Prop :=
  forall (d : dict P) (k : string),
    well_formed d = true ->
    distinct (keys (entries_under pre cs)) = true ->
    first_missing (keys (entries_under pre cs)) d = Some k ->
    over_children
      (fun sub_name child processor =>
         fn_recursive_attn_processor (pre sub_name) child processor)
      cs (Mapping d)
    = Raise (KeyError k).

End Processors.

(** ** Further notions *)

Module MoreNotions.

Import Convert.

(** The length of a tuple or a list of a configuration. *)
Definition seq_length (v : pyval) : option nat :=
  match v with
  | PTuple l | PList l => Some (length l)
  | _ => None
  end.

Definition field_length (key : string) (config : dict pyval) : option nat :=
  match lookup key config with
  | Some v => seq_length v
  | None => None
  end.

(** The entries of a configuration that have one item per block, in every
    preset and in some. *)
Definition per_block_fields : list string :=
  [ "encoder_block_types"; "decoder_block_types"; "block_out_channels";
    "encoder_layers_per_block"; "decoder_layers_per_block";
    "encoder_qkv_multiscales"; "decoder_qkv_multiscales" ].

Definition optional_per_block_fields : list string :=
  [ "decoder_norm_types"; "decoder_act_fns" ].

(** The three keys [get_state_dict] looks for. *)
Definition wrapper_keys : list string := [ "model"; "module"; "state_dict" ].

Definition other_wrappers_absent {V : Type} (k : string) (d : dict V) : bool :=
  forallb (fun k' => String.eqb k' k || negb (contains_key k' d)) wrapper_keys.

(** No pattern of the rename table and no trigger of a handler occurs in
    the key. *)
Definition untouched (key : string) : bool :=
  forallb (fun r => negb (contains (fst r) key)) VAE_KEYS_RENAME_DICT
  && negb (contains "qkv.conv.weight" key).

End MoreNotions.

Import MoreNotions.

(** ** Tensor layout

    [reshape], [permute] and [chunk] of torch, on tensors read in their
    logical (row-major) order: [flat t k] is element [k] of [t.flatten()].
    A call that raises returns [None]. *)

Module Layout.

Local Open Scope nat_scope.

Definition numel (size : list nat) : nat := fold_right Nat.mul 1 size.

Fixpoint in_range (size index : list nat) {struct size} : bool :=
  match size, index with
  | [], [] => true
  | n :: size', i :: index' => (i <? n) && in_range size' index'
  | _, _ => false
  end.

(** The place of an index in the row-major order, and back. *)
Fixpoint ravel (size index : list nat) {struct size} : nat :=
  match size, index with
  | _ :: size', i :: index' => i * numel size' + ravel size' index'
  | _, _ => 0
  end.

Fixpoint unravel (size : list nat) (k : nat) {struct size} : list nat :=
  match size with
  | [] => []
  | _ :: size' => k / numel size' :: unravel size' (k mod numel size')
  end.

Record tensor_nd (E : Type) : Type := { size : list nat; flat : nat -> E }.

Arguments size {E} t.
Arguments flat {E} t k.

(** [t[index]], [None] out of range. *)
Definition get {E : Type} (t : tensor_nd E) (index : list nat) : option E :=
  if in_range (size t) index then Some (flat t (ravel (size t) index)) else None.

(** An extent given to [reshape]: a number, or [-1]. *)
Inductive extent : Type :=
| Dim (n : nat)
| Infer.

Definition newsize (shape : list extent) : nat :=
  fold_right (fun e acc => match e with Dim n => n * acc | Infer => acc end) 1 shape.

Definition infer_dims (shape : list extent) : nat :=
  length (filter (fun e => match e with Infer => true | Dim _ => false end) shape).

(** The sizes [reshape] gives a tensor of [n] elements ([infer_size] of
    torch): one [-1] at most; the known extents multiply to [n], or, with a
    [-1], to a positive divisor of [n]; with a [-1] they do not multiply
    to zero. *)
Definition infer_size (shape : list extent) (n : nat) : option (list nat) :=
  let known := newsize shape in
  match infer_dims shape with
  | 0 =>
      if n =? known
      then Some (map (fun e => match e with Dim d => d | Infer => 0 end) shape)
      else None
  | 1 =>
      if (n =? known) || ((0 <? known) && (n mod known =? 0))
      then if known =? 0 then None
           else Some (map (fun e => match e with Dim d => d | Infer => n / known end) shape)
      else None
  | _ => None
  end.

Definition reshape {E : Type} (t : tensor_nd E) (shape : list extent)
  : option (tensor_nd E) :=
  match infer_size shape (numel (size t)) with
  | Some size' => Some {| size := size'; flat := flat t |}
  | None => None
  end.

Fixpoint index_of (d : nat) (dims : list nat) {struct dims} : nat :=
  match dims with
  | [] => 0
  | d' :: dims' => if d =? d' then 0 else S (index_of d dims')
  end.

Fixpoint distinct_dims (dims : list nat) {struct dims} : bool :=
  match dims with
  | [] => true
  | d :: dims' => negb (existsb (Nat.eqb d) dims') && distinct_dims dims'
  end.

(** [t.permute(dims)]: axis [i] of the result is axis [dims[i]] of [t]. *)
Definition permute {E : Type} (t : tensor_nd E) (dims : list nat)
  : option (tensor_nd E) :=
  if (length dims =? length (size t))
     && forallb (fun d => d <? length (size t)) dims
     && distinct_dims dims
  then
    let size' := map (fun d => nth d (size t) 0) dims in
    Some {| size := size';
            flat := fun k =>
              let index' := unravel size' k in
              flat t (ravel (size t)
                        (map (fun d => nth (index_of d dims) index' 0)
                             (seq 0 (length dims)))) |}
  else None.

Fixpoint set_nth {A : Type} (i : nat) (x : A) (l : list A) {struct l} : list A :=
  match l, i with
  | [], _ => []
  | _ :: l', 0 => x :: l'
  | y :: l', S i' => y :: set_nth i' x l'
  end.

(** [t.narrow(dim, start, length)] *)
Definition narrow {E : Type} (t : tensor_nd E) (dim start len : nat) : tensor_nd E :=
  let size' := set_nth dim len (size t) in
  {| size := size';
     flat := fun k =>
       let index' := unravel size' k in
       flat t (ravel (size t) (set_nth dim (start + nth dim index' 0) index')) |}.

(** [torch.chunk(t, chunks, dim)], for [chunks] at least 1: pieces of
    [ceil(n / chunks)] along [dim], the last one with what is left, so that
    there can be fewer than [chunks] of them; [chunks] empty pieces when
    the axis is empty. *)
Definition chunk {E : Type} (t : tensor_nd E) (chunks dim : nat)
  : option (list (tensor_nd E)) :=
  if dim <? length (size t) then
    let dim_size := nth dim (size t) 0 in
    let split_size := (dim_size + chunks - 1) / chunks in
    if split_size =? 0 then Some (repeat (narrow t dim 0 0) chunks)
    else
      Some (map (fun i =>
                   narrow t dim (i * split_size)
                     (Nat.min split_size (dim_size - i * split_size)))
                (seq 0 ((dim_size + split_size - 1) / split_size)))
  else None.

(** [a // b] on Python ints that are not negative. *)
Definition floordiv (a b : nat) : option nat :=
  if b =? 0 then None else Some (a / b).

(** *** SanaTransformer2DModel.forward: 5. Unpatchify *)
Definition unpatchify {E : Type}
  (batch_size post_patch_height post_patch_width patch_size : nat)
  (hidden_states : tensor_nd E) : option (tensor_nd E) :=
  match reshape hidden_states
          [Dim batch_size; Dim post_patch_height; Dim post_patch_width;
           Dim patch_size; Dim patch_size; Infer] with
  | Some hidden_states =>
      match permute hidden_states [0; 5; 1; 3; 2; 4] with
      | Some hidden_states =>
          reshape hidden_states
            [Dim batch_size; Infer; Dim (post_patch_height * patch_size);
             Dim (post_patch_width * patch_size)]
      | None => None
      end
  | None => None
  end.

End Layout.

(** ** SanaGLUMBConv.forward

    The convolutions, the activation and the product are operations of
    torch on tensors, each of which can raise; [int_sqrt] is
    [int(N**0.5)]. *)

Module GLUMBConv.

Import Layout.

Local Open Scope nat_scope.

Section Convolutions.
Context {E : Type}.
Variable conv_inverted nonlinearity conv_depth conv_point : tensor_nd E -> option (tensor_nd E).
Variable mul : tensor_nd E -> tensor_nd E -> option (tensor_nd E).
Variable int_sqrt : nat -> nat.

(** [hidden_states.reshape(B, H, W, C).permute(0, 3, 1, 2)] *)
Definition to_image (B H W C : nat) (hidden_states : tensor_nd E) : option (tensor_nd E) :=
  match reshape hidden_states [Dim B; Dim H; Dim W; Dim C] with
  | Some hidden_states => permute hidden_states [0; 3; 1; 2]
  | None => None
  end.

(** From [conv_inverted] to [conv_point]. *)
Definition gated_convolution (hidden_states : tensor_nd E) : option (tensor_nd E) :=
  match conv_inverted hidden_states with
  | Some hidden_states =>
      match nonlinearity hidden_states with
      | Some hidden_states =>
          match conv_depth hidden_states with
          | Some hidden_states =>
              match chunk hidden_states 2 1 with
              | Some [hidden_states; gate] =>
                  match nonlinearity gate with
                  | Some gate =>
                      match mul hidden_states gate with
                      | Some hidden_states => conv_point hidden_states
                      | None => None
                      end
                  | None => None
                  end
              | _ => None
              end
          | None => None
          end
      | None => None
      end
  | None => None
  end.

(** [hidden_states.reshape(B, C, N).permute(0, 2, 1)] *)
Definition to_tokens (B C N : nat) (hidden_states : tensor_nd E) : option (tensor_nd E) :=
  match reshape hidden_states [Dim B; Dim C; Dim N] with
  | Some hidden_states => permute hidden_states [0; 2; 1]
  | None => None
  end.

Definition forward (hidden_states : tensor_nd E) (HW : option (nat * nat))
  : option (tensor_nd E) :=
  match size hidden_states with
  | [B; N; C] =>
      let '(H, W) := match HW with
                     | None => (int_sqrt N, int_sqrt N)
                     | Some HW => HW
                     end in
      match to_image B H W C hidden_states with
      | Some hidden_states =>
          match gated_convolution hidden_states with
          | Some hidden_states => to_tokens B C N hidden_states
          | None => None
          end
      | None => None
      end
  | _ => None
  end.

End Convolutions.

End GLUMBConv.

(** ** SanaTransformerBlock: the attributes [__init__] assigns

    [__init__] assigns [norm2] and [attn2] only under
    [if cross_attention_dim is not None]; [forward] reads both.  Reading an
    attribute of a module that was never assigned raises [AttributeError]. *)

Module Blocks.

Import Sana.

Inductive attribute_error : Type := AttributeError (name : string).

Inductive block_result : Type :=
| Returns (hidden_states : tensor3)
| Raises (e : attribute_error).

Definition cross_attention_module : Type :=
  tensor3 -> option tensor3 -> option (tensor scalar) -> tensor3.

(** A block object: an attribute that may be missing is an [option]; the
    value of [attn2], when it is there, is [None] or a module. *)
Record block : Type := {
  norm1 : tensor3 -> tensor3;
  attn1 : tensor3 -> tensor3;
  norm2 : option (tensor3 -> tensor3);
  attn2 : option (option cross_attention_module);
  ff : tensor3 -> option (nat * nat) -> tensor3;
  scale_shift_table : tensor2
}.

(** [SanaTransformerBlock.__init__]; the modules that the constructors of
    torch and diffusers return, and the initial table, are arguments. *)
Definition init (cross_attention_dim : option nat)
  (LayerNorm1 Attention1 LayerNorm2 : tensor3 -> tensor3)
  (Attention2 : cross_attention_module)
  (SanaGLUMBConv : tensor3 -> option (nat * nat) -> tensor3)
  (table : tensor2) : block :=
  {| norm1 := LayerNorm1;
     attn1 := Attention1;
     norm2 := match cross_attention_dim with
              | Some _ => Some LayerNorm2
              | None => None
              end;
     attn2 := match cross_attention_dim with
              | Some _ => Some (Some Attention2)
              | None => None
              end;
     ff := SanaGLUMBConv;
     scale_shift_table := table |}.

(** [SanaTransformerBlock.forward] on a block object. *)
Definition forward (dt : dtype) (dim : nat) (self : block)
  (hidden_states : tensor3)
  (attention_mask : option (tensor scalar))
  (encoder_hidden_states : option tensor3)
  (encoder_attention_mask : option (tensor scalar))
  (timestep : tensor2) (HW : option (nat * nat)) : block_result :=
  let hidden_states :=
    self_attention dt dim (scale_shift_table self) (norm1 self) (attn1 self)
      hidden_states timestep in
  match attn2 self with
  | None => Raises (AttributeError "attn2")
  | Some attn2 =>
      let hidden_states :=
        cross_attention dt attn2 hidden_states encoder_hidden_states
          encoder_attention_mask in
      match norm2 self with
      | None => Raises (AttributeError "norm2")
      | Some norm2 =>
          Returns (feed_forward dt dim (scale_shift_table self) norm2 (ff self)
                     hidden_states timestep HW)
      end
  end.

(** [SanaTransformer2DModel.__init__], "3. Transformer blocks": [num_layers]
    blocks, all with the [cross_attention_dim] of the model, each with
    modules of its own. *)
Definition transformer_blocks (num_layers : nat) (cross_attention_dim : option nat)
  (LayerNorm1 Attention1 LayerNorm2 : nat -> tensor3 -> tensor3)
  (Attention2 : nat -> cross_attention_module)
  (SanaGLUMBConv : nat -> tensor3 -> option (nat * nat) -> tensor3)
  (table : nat -> tensor2) : list block :=
  map (fun i => init cross_attention_dim (LayerNorm1 i) (Attention1 i) (LayerNorm2 i)
                  (Attention2 i) (SanaGLUMBConv i) (table i))
      (seq 0 num_layers).

(** [SanaTransformer2DModel.forward], "2. Transformer blocks":
    [for block in self.transformer_blocks: hidden_states = block(...)];
    [create_block_forward(block)] is [block], or [block] under
    [torch.utils.checkpoint], which returns what [block] returns. *)
Fixpoint run_blocks (dt : dtype) (dim : nat) (blocks : list block)
  (hidden_states : tensor3)
  (attention_mask : option (tensor scalar))
  (encoder_hidden_states : option tensor3)
  (encoder_attention_mask : option (tensor scalar))
  (timestep : tensor2) (HW : option (nat * nat)) {struct blocks} : block_result :=
  match blocks with
  | [] => Returns hidden_states
  | block :: blocks' =>
      match forward dt dim block hidden_states attention_mask encoder_hidden_states
              encoder_attention_mask timestep HW with
      | Returns hidden_states =>
          run_blocks dt dim blocks' hidden_states attention_mask encoder_hidden_states
            encoder_attention_mask timestep HW
      | Raises e => Raises e
      end
  end.

(** The masks of [SanaTransformer2DModel.forward] as they reach the blocks:
    both are prepared first, and every block gets the same two. *)
Definition forward_blocks (dt : dtype) (dim : nat) (blocks : list block)
  (hidden_states : tensor3) (encoder_hidden_states : option tensor3)
  (timestep : tensor2)
  (encoder_attention_mask attention_mask : option (tensor scalar))
  (HW : option (nat * nat)) : block_result :=
  let '(attention_mask, encoder_attention_mask) :=
    forward_masks dt encoder_attention_mask attention_mask in
  run_blocks dt dim blocks hidden_states attention_mask encoder_hidden_states
    encoder_attention_mask timestep HW.

End Blocks.

(** * Facts *)

(** ** Strings *)

Module PyStrFacts.

Local Open Scope string_scope.

Lemma drop_empty (n : nat) : drop n "" = "".
Proof. destruct n; reflexivity. Qed.

Lemma length_drop (n : nat) (s : string) :
  String.length (drop n s) = String.length s - n.
Proof.
  revert n; induction s as [|c s IH]; intros [|n]; simpl; auto.
Qed.

Lemma prefix_length (a s : string) :
  prefix a s = true -> String.length a <= String.length s.
Proof.
  revert s; induction a as [|x a IH]; intros [|y s] H; simpl in *;
    try lia; try discriminate.
  destruct (ascii_dec x y); [|discriminate].
  apply IH in H; lia.
Qed.

Lemma prefix_app_l (a b s : string) :
  prefix (a ++ b) s = true -> prefix a s = true.
Proof.
  revert s; induction a as [|x a IH]; intros [|y s] H; simpl in *;
    try reflexivity; try discriminate.
  destruct (ascii_dec x y); [eauto|discriminate].
Qed.

Lemma contains_app_l (a b s : string) :
  contains (a ++ b) s = true -> contains a s = true.
Proof.
  induction s as [|c s IH]; cbn [contains]; intros H;
    apply orb_true_iff in H as [H|H]; apply orb_true_iff;
    try discriminate; eauto using prefix_app_l.
Qed.

Lemma contains_empty (s : string) : contains "" s = true.
Proof. destruct s; reflexivity. Qed.

(** Passing over [k] characters is scanning what is left after them. *)
Lemma replace_from_skip (old new : string) (k : nat) (s : string) :
  replace_from old new k s = replace_from old new 0 (drop k s).
Proof.
  revert k; induction s as [|c s IH]; intros [|k]; try reflexivity.
  simpl drop. rewrite <- IH. reflexivity.
Qed.

(** The equations of [replace] for a non-empty pattern. *)
Lemma replace_nil (x : ascii) (old new : string) :
  replace (String x old) new "" = "".
Proof. reflexivity. Qed.

Lemma replace_hit (x : ascii) (old new s : string) :
  prefix (String x old) s = true ->
  replace (String x old) new s =
  new ++ replace (String x old) new (drop (String.length (String x old)) s).
Proof.
  intros H. destruct s as [|c s]; [discriminate|].
  unfold replace. cbn [replace_from]. rewrite H.
  rewrite replace_from_skip. cbn [String.length drop Nat.sub].
  rewrite Nat.sub_0_r. reflexivity.
Qed.

Lemma replace_miss (x c : ascii) (old new s : string) :
  prefix (String x old) (String c s) = false ->
  replace (String x old) new (String c s) = String c (replace (String x old) new s).
Proof.
  intros H. unfold replace. cbn [replace_from]. rewrite H. reflexivity.
Qed.

(** A pattern that does not occur leaves the string as it is. *)
Lemma replace_absent (old new s : string) :
  contains old s = false -> replace old new s = s.
Proof.
  destruct old as [|x old].
  - rewrite contains_empty; discriminate.
  - induction s as [|c s IH]; intros H; [reflexivity|].
    simpl contains in H. apply orb_false_iff in H as [Hp Hc].
    rewrite replace_miss by exact Hp. rewrite IH by exact Hc. reflexivity.
Qed.

Lemma length_append (a b : string) :
  String.length (a ++ b) = String.length a + String.length b.
Proof. induction a; simpl; auto. Qed.

(** A replacement no longer than the pattern does not lengthen the
    string, and a shorter one shortens it wherever the pattern occurs. *)
Lemma replace_length (x : ascii) (old new : string) :
  String.length new <= String.length (String x old) ->
  forall n s, String.length s <= n ->
    String.length (replace (String x old) new s) <= String.length s /\
    (String.length new < String.length (String x old) ->
     contains (String x old) s = true ->
     String.length (replace (String x old) new s) < String.length s).
Proof.
  intros Hle. induction n as [|n IH]; intros s Hn.
  - destruct s; [|simpl in Hn; lia]. split; [reflexivity|].
    intros _ H; discriminate.
  - destruct s as [|c s]; [split; [reflexivity|intros _ H; discriminate]|].
    cbn [String.length] in Hn.
    destruct (prefix (String x old) (String c s)) eqn:Hp.
    + rewrite replace_hit by exact Hp.
      pose proof (prefix_length _ _ Hp) as Hl.
      destruct (IH (drop (String.length (String x old)) (String c s))) as [IH1 _].
      { rewrite length_drop. cbn [String.length] in *. lia. }
      rewrite length_append. rewrite length_drop in IH1.
      cbn [String.length] in *. split; intros; lia.
    + rewrite replace_miss by exact Hp.
      destruct (IH s) as [IH1 IH2]; [lia|].
      cbn [String.length] in *. split; [lia|].
      intros Hlt Hc. cbn [contains] in Hc. rewrite Hp in Hc. simpl orb in Hc.
      specialize (IH2 Hlt Hc). lia.
Qed.

Lemma replace_shorter_neq (old new s : string) :
  String.length new < String.length old ->
  contains old s = true ->
  replace old new s <> s.
Proof.
  intros Hlt Hc Heq. destruct old as [|x old]; [simpl in Hlt; lia|].
  destruct (replace_length x old new (Nat.lt_le_incl _ _ Hlt) (String.length s) s (le_n _))
    as [_ H].
  specialize (H Hlt Hc). rewrite Heq in H. lia.
Qed.

Lemma mem_In (k : string) (l : list string) : mem k l = true <-> In k l.
Proof.
  induction l as [|x l IH]; simpl; [split; [discriminate|tauto]|].
  rewrite orb_true_iff, IH, String.eqb_eq. split; intros [H|H]; auto.
Qed.

Lemma mem_false (k : string) (l : list string) : mem k l = false <-> ~ In k l.
Proof.
  rewrite <- mem_In. destruct (mem k l); split; congruence.
Qed.

Lemma distinct_NoDup (l : list string) : distinct l = true <-> NoDup l.
Proof.
  induction l as [|x l IH]; simpl.
  - split; [constructor|reflexivity].
  - rewrite andb_true_iff, negb_true_iff, mem_false, IH. split.
    + intros [H1 H2]; constructor; assumption.
    + intros H; inversion H; subst; auto.
Qed.

End PyStrFacts.

(** ** Dictionaries *)

Module PyDictFacts.

Import PyStrFacts.

Section Facts.
Context {V : Type}.
Implicit Types (d N R : dict V) (k : string) (v : V).

Lemma keys_app N R : keys (N ++ R) = keys N ++ keys R.
Proof. apply map_app. Qed.

Lemma values_app N R : values (N ++ R) = values N ++ values R.
Proof. apply map_app. Qed.

Lemma mem_app k (l1 l2 : list string) : mem k (l1 ++ l2) = mem k l1 || mem k l2.
Proof.
  induction l1 as [|x l1 IH]; simpl; [reflexivity|].
  rewrite IH, orb_assoc. reflexivity.
Qed.

Lemma contains_key_mem k d : contains_key k d = mem k (keys d).
Proof.
  unfold contains_key.
  induction d as [|[k' v'] d IH]; simpl; [reflexivity|].
  destruct (String.eqb k k'); [reflexivity|exact IH].
Qed.

Lemma lookup_None k d : lookup k d = None <-> mem k (keys d) = false.
Proof.
  rewrite <- contains_key_mem. unfold contains_key.
  destruct (lookup k d); split; congruence.
Qed.

Lemma lookup_app k N R :
  lookup k (N ++ R) = match lookup k N with Some v => Some v | None => lookup k R end.
Proof.
  induction N as [|[k' v'] N IH]; simpl; [reflexivity|].
  destruct (String.eqb k k'); [reflexivity|exact IH].
Qed.

(** An entry that is there splits the dictionary at its place. *)
Lemma lookup_split k d v :
  lookup k d = Some v ->
  exists N R, d = N ++ (k, v) :: R /\ mem k (keys N) = false.
Proof.
  induction d as [|[k' v'] d IH]; simpl; [discriminate|].
  destruct (String.eqb k k') eqn:E.
  - intros [= ->]. apply String.eqb_eq in E as <-.
    exists [], d. split; reflexivity.
  - intros H. destruct (IH H) as (N & R & -> & Hm).
    exists ((k', v') :: N), R. split; [reflexivity|].
    simpl. rewrite E. exact Hm.
Qed.

Lemma setitem_fresh k v d :
  mem k (keys d) = false -> setitem k v d = d ++ [(k, v)].
Proof.
  induction d as [|[k' v'] d IH]; simpl; [reflexivity|].
  destruct (String.eqb k k'); simpl; [discriminate|].
  intros H. rewrite IH by exact H. reflexivity.
Qed.

Lemma lookup_setitem_eq k v d : lookup k (setitem k v d) = Some v.
Proof.
  induction d as [|[k' v'] d IH]; simpl.
  - rewrite String.eqb_refl. reflexivity.
  - destruct (String.eqb k k') eqn:E; simpl; rewrite E; [reflexivity|exact IH].
Qed.

Lemma lookup_setitem_ne k k' v d :
  k' <> k -> lookup k' (setitem k v d) = lookup k' d.
Proof.
  intros Hne. apply String.eqb_neq in Hne.
  induction d as [|[k0 v0] d IH]; simpl.
  - rewrite Hne. reflexivity.
  - destruct (String.eqb k k0) eqn:E; simpl.
    + apply String.eqb_eq in E as <-. rewrite Hne. reflexivity.
    + rewrite IH. reflexivity.
Qed.

Lemma keys_setitem k v d :
  keys (setitem k v d) = if mem k (keys d) then keys d else keys d ++ [k].
Proof.
  induction d as [|[k' v'] d IH]; simpl; [reflexivity|].
  destruct (String.eqb k k'); simpl; [reflexivity|].
  rewrite IH. destruct (mem k (keys d)); reflexivity.
Qed.

Lemma values_setitem k v d : incl (values (setitem k v d)) (v :: values d).
Proof.
  induction d as [|[k' v'] d IH]; simpl.
  - apply incl_refl.
  - destruct (String.eqb k k'); simpl.
    + intros x [<-|H]; simpl; auto.
    + intros x [<-|H]; simpl; auto.
      destruct (IH x H) as [<-|H']; simpl; auto.
Qed.

Lemma pop_app k v N R :
  mem k (keys N) = false -> pop k (N ++ (k, v) :: R) = Ok (v, N ++ R).
Proof.
  induction N as [|[k' v'] N IH]; simpl.
  - rewrite String.eqb_refl. reflexivity.
  - destruct (String.eqb k k'); simpl; [discriminate|].
    intros H. rewrite IH by exact H. reflexivity.
Qed.

Lemma pop_inv k d v d' :
  pop k d = Ok (v, d') ->
  exists N R, d = N ++ (k, v) :: R /\ d' = N ++ R /\ mem k (keys N) = false.
Proof.
  revert d'. induction d as [|[k' v'] d IH]; simpl; intros d'; [discriminate|].
  destruct (String.eqb k k') eqn:E.
  - intros [= <- <-]. apply String.eqb_eq in E as <-.
    exists [], d. repeat split.
  - destruct (pop k d) as [[x r]|e]; simpl; [|discriminate].
    intros [= -> <-]. destruct (IH r eq_refl) as (N & R & -> & -> & Hm).
    exists ((k', v') :: N), R. repeat split. simpl. rewrite E. exact Hm.
Qed.

Lemma pop_present k d :
  mem k (keys d) = true -> exists v d', pop k d = Ok (v, d').
Proof.
  induction d as [|[k' v'] d IH]; simpl; [discriminate|].
  destruct (String.eqb k k'); simpl; [eauto|].
  intros H. destruct (IH H) as (v & d' & ->). simpl. eauto.
Qed.

(** A well-formed dictionary split at an entry: the key is nowhere else. *)
Lemma well_formed_split k v N R :
  well_formed (N ++ (k, v) :: R) = true ->
  mem k (keys N) = false /\ mem k (keys R) = false /\ well_formed (N ++ R) = true.
Proof.
  unfold well_formed. rewrite !keys_app. simpl keys.
  rewrite !distinct_NoDup. intros H.
  pose proof (NoDup_remove _ _ _ H) as [H1 H2].
  rewrite !mem_false. repeat split; auto.
  - intros Hin; apply H2, in_or_app; auto.
  - intros Hin; apply H2, in_or_app; auto.
Qed.

Lemma well_formed_setitem k v d :
  well_formed d = true -> well_formed (setitem k v d) = true.
Proof.
  unfold well_formed. rewrite keys_setitem.
  destruct (mem k (keys d)) eqn:E; [auto|].
  rewrite !distinct_NoDup. intros H.
  apply NoDup_rev in H. rewrite <- (rev_involutive (keys d ++ [k])).
  apply NoDup_rev. rewrite rev_app_distr. simpl. constructor; [|exact H].
  rewrite <- in_rev. apply mem_false. exact E.
Qed.

End Facts.

End PyDictFacts.

Import PyStrFacts PyDictFacts.

(** ** The unwrap step *)

Module UnwrapFacts.

Lemma depth_wrap {T : Type} (k : string) (X : value T) :
  depth (Dict [(k, X)]) = S (depth X).
Proof. simpl. rewrite Nat.max_0_r. reflexivity. Qed.

Lemma wrap_neq {T : Type} (k : string) (X : value T) : Dict [(k, X)] <> X.
Proof.
  intros H. apply (f_equal depth) in H. rewrite depth_wrap in H. lia.
Qed.

(** C1, as the code has it.  The three checks are made in the order
    "model", "module", "state_dict", and each of them tests the keys of the
    mapping that was passed in, not those of the scope reached so far: for
    every wrapper key that the passed mapping has, in that order, the scope
    becomes the value the scope has at that key (and the call raises where
    the scope has none, or is no mapping); the scope reached is returned.  So
    [{"model": {"module": X}}] gives [{"module": X}], whatever [X] is, and
    [X] comes out when "module" is a key of the passed mapping as well.  A
    flat mapping of tensors with two wrapper keys among its keys makes the
    call fail: the second key is looked up in the tensor of the first. *)
Theorem get_state_dict_tests_passed_mapping :
  (forall (T : Type) (saved_dict : dict (value T)),
      get_state_dict saved_dict
      = fold_left
          (fun scope k => state_dict <- scope ;; subscript state_dict k)
          (filter (fun k => contains_key k saved_dict) ["model"; "module"; "state_dict"])
          (Ok (Dict saved_dict)))
  /\ (forall (T : Type) (X : value T),
         get_state_dict [("model", Dict [("module", X)])] = Ok (Dict [("module", X)])
         /\ get_state_dict [("model", Dict [("module", X)])] <> Ok X)
  /\ (forall (T : Type) (X Y : value T),
         get_state_dict [("model", Dict [("module", X)]); ("module", Y)] = Ok X)
  /\ (forall (T : Type) (t u : T),
         get_state_dict [("model", Dict [("w", Tensor t)]); ("module", Dict [("w", Tensor u)])]
         = Raise (KeyError "module"))
  /\ (forall (T : Type) (t u : T),
         get_state_dict [("model", Tensor t); ("module", Tensor u)] = Raise NotAMapping).
Proof.
  split; [|split; [|split; [|split]]].
  - intros T saved_dict. unfold get_state_dict. cbn [filter].
    destruct (contains_key "model" saved_dict);
      destruct (contains_key "module" saved_dict);
      destruct (contains_key "state_dict" saved_dict);
      cbn [fold_left bind];
      repeat match goal with
             | |- context [subscript ?v ?k] =>
                 destruct (subscript v k); cbn [bind]
             end;
      reflexivity.
  - intros T X. split; [reflexivity|].
    change (Ok (Dict [("module", X)]) <> Ok X).
    intros [= H]. exact (wrap_neq "module" X H).
  - reflexivity.
  - reflexivity.
  - reflexivity.
Qed.

(** C1, as it is claimed, fails on its own example: for
    [X = {"w": 1}], the mapping [{"model": {"module": X}}] unwraps to
    [{"module": X}] and not to [X], which is what narrowing from the scope
    reached so far gives.  It fails on a flat mapping of tensors as well:
    with the keys "model" and "module" the call raises, where narrowing from
    the scope reached so far returns the tensor at "model". *)
Lemma get_state_dict_nested_wrappers :
  get_state_dict [("model", Dict [("module", Dict [("w", Tensor 1)])])]
  = Ok (Dict [("module", Dict [("w", Tensor 1)])])
  /\ get_state_dict [("model", Dict [("module", Dict [("w", Tensor 1)])])]
     <> Ok (Dict [("w", Tensor 1)])
  /\ unwrap_by_scope [("model", Dict [("module", Dict [("w", Tensor 1)])])]
     = Dict [("w", Tensor 1)]
  /\ get_state_dict [("model", Tensor 1); ("module", Tensor 2)] = Raise NotAMapping
  /\ unwrap_by_scope [("model", Tensor 1); ("module", Tensor 2)] = Tensor 1.
Proof.
  split; [reflexivity|]. split; [|repeat split].
  intros H. vm_compute in H. discriminate H.
Qed.

(** C6.  A mapping with none of the keys "model", "module" and
    "state_dict" is returned as it is, and unwrapping what was returned
    gives it again. *)
Theorem get_state_dict_no_wrapper :
  forall (T : Type) (saved_dict : dict (value T)),
    contains_key "model" saved_dict = false ->
    contains_key "module" saved_dict = false ->
    contains_key "state_dict" saved_dict = false ->
    get_state_dict saved_dict = Ok (Dict saved_dict)
    /\ (v <- get_state_dict saved_dict ;; d <- as_dict v ;; get_state_dict d)
       = get_state_dict saved_dict.
Proof.
  intros T saved_dict H1 H2 H3.
  assert (E : get_state_dict saved_dict = Ok (Dict saved_dict)).
  { unfold get_state_dict. rewrite H1, H2, H3. reflexivity. }
  split; [exact E|]. rewrite E. simpl. exact E.
Qed.

Lemma get_state_dict_no_wrapper_witness :
  get_state_dict [("encoder.project_in.conv.weight", Tensor 7)]
  = Ok (Dict [("encoder.project_in.conv.weight", Tensor 7)])
  /\ (v <- get_state_dict [("encoder.project_in.conv.weight", Tensor 7)] ;;
      d <- as_dict v ;; get_state_dict d)
     = get_state_dict [("encoder.project_in.conv.weight", Tensor 7)].
Proof.
  apply (@get_state_dict_no_wrapper nat); reflexivity.
Defined.

End UnwrapFacts.

(** ** The two passes of [convert_vae] *)

Module PassFacts.

Section Loops.
Context {V : Type}.
Implicit Types (d u N M : dict V) (k : string) (v : V).

Lemma rename_loop_move (ks : list string) d :
  rename_loop ks d = move_loop (fun _ => true) rename_key ks d.
Proof.
  revert d; induction ks as [|k ks IH]; intros d; simpl; [reflexivity|].
  destruct (update_state_dict_ d k (rename_key k)); simpl; auto.
Qed.

Lemma special_loop_move (ks : list string) d :
  special_loop ks d
  = move_loop (contains "qkv.conv.weight") (replace "qkv.conv" "to_qkv") ks d.
Proof.
  revert d; induction ks as [|k ks IH]; intros d; [reflexivity|].
  cbn [special_loop move_loop VAE_SPECIAL_KEYS_REMAP apply_handlers].
  destruct (contains "qkv.conv.weight" k); cbn [negb].
  - change (remap_qkv_ k d)
      with (update_state_dict_ d k (replace "qkv.conv" "to_qkv" k)).
    destruct (update_state_dict_ d k (replace "qkv.conv" "to_qkv" k)); simpl; auto.
  - simpl. auto.
Qed.

Section Move.
Variable select : string -> bool.
Variable f : string -> string.

Local Abbreviation target := (target select f).
Local Abbreviation stays := (stays select).
Local Abbreviation moved := (moved select f).

Lemma no_clash_incl (done done' todo : list string) :
  incl done' done ->
  no_clash target done todo = true -> no_clash target done' todo = true.
Proof.
  revert done done'; induction todo as [|k rest IH]; intros done done' Hi; simpl;
    [reflexivity|].
  rewrite !andb_true_iff, !negb_true_iff, !mem_false.
  intros [[H1 H2] H3]. repeat split; auto.
  apply (IH (target k :: done)); [|exact H3].
  intros x [<-|Hx]; simpl; auto.
Qed.

(** One turn of the loop on an entry that moves to a key not there. *)
Lemma update_fresh k v N R (nk : string) :
  mem k (keys N) = false ->
  mem nk (keys (N ++ R)) = false ->
  update_state_dict_ (N ++ (k, v) :: R) k nk = Ok (N ++ R ++ [(nk, v)]).
Proof.
  intros Hk Hnk. unfold update_state_dict_. rewrite pop_app by exact Hk.
  simpl. rewrite setitem_fresh by exact Hnk. rewrite app_assoc. reflexivity.
Qed.

(** Without a clash, the loop leaves the entries it does not select in
    place and puts the others behind them, in their order, under
    their new keys. *)
Lemma move_loop_shape u : forall N M (done : list string),
  well_formed (N ++ u ++ M) = true ->
  incl (keys N ++ keys M) done ->
  no_clash target done (keys u) = true ->
  move_loop select f (keys u) (N ++ u ++ M)
  = Ok ((N ++ stays u) ++ (M ++ moved u)).
Proof.
  induction u as [|[k v] u IH]; intros N M done Hwf Hin Hnc.
  - simpl. rewrite !app_nil_r. reflexivity.
  - change (keys ((k, v) :: u)) with (k :: keys u) in *.
    cbn [no_clash] in Hnc. rewrite !andb_true_iff, !negb_true_iff in Hnc.
    destruct Hnc as [[Hd Hr] Hnc].
    change (N ++ ((k, v) :: u) ++ M) with (N ++ (k, v) :: (u ++ M)) in *.
    destruct (well_formed_split _ _ _ _ Hwf) as (HkN & HkR & Hwf').
    cbn [move_loop]. unfold Notions.target in Hd, Hr, Hnc.
    unfold Notions.stays, Notions.moved. cbn [filter fst snd].
    destruct (select k) eqn:Hs; cbn [negb map fst snd].
    + assert (Hfresh : mem (f k) (keys (N ++ u ++ M)) = false).
      { rewrite !keys_app, !mem_app. rewrite Hr.
        apply mem_false in Hd.
        assert (mem (f k) (keys N) = false) as ->.
        { apply mem_false. intros H. apply Hd, Hin, in_or_app. auto. }
        assert (mem (f k) (keys M) = false) as ->.
        { apply mem_false. intros H. apply Hd, Hin, in_or_app. auto. }
        reflexivity. }
      rewrite update_fresh by assumption. cbn [bind].
      replace (N ++ (u ++ M) ++ [(f k, v)]) with (N ++ u ++ (M ++ [(f k, v)]))
        by (rewrite <- !app_assoc; reflexivity).
      rewrite (IH N (M ++ [(f k, v)]) (f k :: done)).
      * fold (stays u). fold (moved u). rewrite <- !app_assoc. reflexivity.
      * replace (N ++ u ++ M ++ [(f k, v)]) with ((N ++ u ++ M) ++ [(f k, v)])
          by (rewrite <- !app_assoc; reflexivity).
        rewrite <- setitem_fresh by exact Hfresh.
        apply well_formed_setitem. exact Hwf'.
      * rewrite keys_app. simpl. intros x Hx.
        apply in_app_or in Hx as [Hx|Hx].
        -- right. apply Hin, in_or_app. auto.
        -- apply in_app_or in Hx as [Hx|[<-|[]]]; simpl; auto.
           right. apply Hin, in_or_app. auto.
      * exact Hnc.
    + cbn [bind].
      replace (N ++ (k, v) :: u ++ M) with ((N ++ [(k, v)]) ++ u ++ M)
        by (rewrite <- app_assoc; reflexivity).
      rewrite (IH (N ++ [(k, v)]) M (k :: done)).
      * fold (stays u). fold (moved u). rewrite <- !app_assoc. reflexivity.
      * rewrite <- app_assoc. exact Hwf.
      * rewrite keys_app. simpl. intros x Hx.
        apply in_app_or in Hx as [Hx|Hx].
        -- apply in_app_or in Hx as [Hx|[<-|[]]]; simpl; auto.
           right. apply Hin, in_or_app. auto.
        -- right. apply Hin, in_or_app. auto.
      * exact Hnc.
Qed.

(** With or without clashes the loop ends, on a well-formed dictionary
    whose values all come from the dictionary it started from. *)
Lemma move_loop_total (ks : list string) : forall d,
  distinct ks = true ->
  (forall k, In k ks -> mem k (keys d) = true) ->
  well_formed d = true ->
  exists d', move_loop select f ks d = Ok d'
             /\ well_formed d' = true
             /\ incl (values d') (values d).
Proof.
  induction ks as [|k ks IH]; intros d Hks Hall Hwf.
  - exists d. simpl. repeat split; auto using incl_refl.
  - simpl in Hks. apply andb_true_iff in Hks as [Hk Hks].
    apply negb_true_iff in Hk. cbn [move_loop].
    destruct (select k).
    + destruct (pop_present k d (Hall k (or_introl eq_refl))) as (v & d0 & Hpop).
      unfold update_state_dict_. rewrite Hpop. cbn [bind].
      destruct (pop_inv _ _ _ _ Hpop) as (N & R & -> & -> & HkN).
      destruct (well_formed_split _ _ _ _ Hwf) as (_ & HkR & Hwf0).
      destruct (IH (setitem (f k) v (N ++ R))) as (d' & Hd' & Hwf' & Hv); auto.
      * intros k' Hk'. specialize (Hall k' (or_intror Hk')).
        assert (Hne : String.eqb k' k = false).
        { apply String.eqb_neq. intros ->. apply mem_false in Hk. auto. }
        rewrite keys_app in Hall. simpl in Hall.
        rewrite mem_app in Hall. simpl in Hall. rewrite Hne in Hall. simpl in Hall.
        rewrite <- mem_app, <- keys_app in Hall.
        rewrite keys_setitem.
        destruct (mem (f k) (keys (N ++ R))); [exact Hall|].
        rewrite mem_app, Hall. reflexivity.
      * apply well_formed_setitem. exact Hwf0.
      * exists d'. repeat split; auto.
        intros x Hx. apply Hv, values_setitem in Hx.
        rewrite values_app in *. simpl.
        destruct Hx as [<-|Hx]; [apply in_or_app; simpl; auto|].
        apply in_app_or in Hx as [Hx|Hx]; apply in_or_app; simpl; auto.
    + cbn [bind]. apply IH; auto.
      intros k' Hk'. apply Hall. right. exact Hk'.
Qed.

End Move.

Lemma stays_all u : stays (fun _ => true) u = [].
Proof. unfold stays. induction u; simpl; auto. Qed.

Lemma moved_all (f : string -> string) u :
  moved (fun _ => true) f u = map (fun kv => (f (fst kv), snd kv)) u.
Proof. unfold moved. induction u; simpl; congruence. Qed.

Lemma stays_moved_perm (select : string -> bool) (f : string -> string) u :
  Permutation (stays select u ++ moved select f u)
              (map (fun kv => (target select f (fst kv), snd kv)) u).
Proof.
  unfold stays, moved, target.
  induction u as [|[k v] u IH]; simpl; [constructor|].
  destruct (select k); simpl.
  - apply Permutation_sym, Permutation_cons_app, Permutation_sym. exact IH.
  - constructor. exact IH.
Qed.

End Loops.

End PassFacts.

(** ** The rename table *)

Module RenameFacts.


(** A rule whose pattern does not occur in a string leaves it alone, and so
    does a list of such rules. *)
Lemma apply_rules_absent (rules : list (string * string)) (s : string) :
  Forall (fun r => contains (fst r) s = false) rules -> apply_rules rules s = s.
Proof.
  induction 1 as [|[a b] rules Ha _ IH]; simpl; [reflexivity|].
  simpl in Ha. rewrite (replace_absent _ _ _ Ha). exact IH.
Qed.





(** C5.  One run of the rename is not the same as two: "norm.weight", which
    contains "norm.", becomes "norm.norm.weight", and that becomes
    "norm.norm.norm.norm.weight"; the same holds for the pass over a
    mapping. *)
Theorem rename_key_not_idempotent :
  (exists key,
      contains "norm." key = true
      /\ rename_key (rename_key key) <> rename_key key)
  /\ (exists d : dict nat,
         (d1 <- rename_pass d ;; rename_pass d1) <> rename_pass d).
Proof.
  split.
  - exists "norm.weight". split; [reflexivity|]. vm_compute. discriminate.
  - exists [("norm.weight", 0)]. vm_compute. discriminate.
Qed.

(** C3.  The checkpoint [{"model": {"encoder.project_in.conv.weight": T}}]
    unwraps to [{"encoder.project_in.conv.weight": T}]; the rename pass
    turns that into [{"encoder.conv_in.weight": T}], the special-key pass
    changes nothing more, and this is the mapping [convert_vae] loads. *)
Theorem convert_vae_encoder_conv_in :
  forall (T : Type) (t : T),
    get_state_dict [("model", Dict [("encoder.project_in.conv.weight", Tensor t)])]
    = Ok (Dict [("encoder.project_in.conv.weight", Tensor t)])
    /\ rename_pass [("encoder.project_in.conv.weight", Tensor t)]
       = Ok [("encoder.conv_in.weight", Tensor t)]
    /\ remap_keys [("encoder.project_in.conv.weight", Tensor t)]
       = Ok [("encoder.conv_in.weight", Tensor t)]
    /\ convert_vae [("model", Dict [("encoder.project_in.conv.weight", Tensor t)])]
       = Ok [("encoder.conv_in.weight", Tensor t)].
Proof.
  intros T t. repeat split.
Qed.

End RenameFacts.

(** ** The special-key handler and the two passes together *)

Module RemapFacts.

Import PassFacts.

Lemma remap_qkv_changes_key (key : string) :
  contains "qkv.conv.weight" key = true ->
  replace "qkv.conv" "to_qkv" key <> key.
Proof.
  intros H. apply replace_shorter_neq; [simpl; lia|].
  apply (contains_app_l "qkv.conv" ".weight"). exact H.
Qed.

(** C4.  For an entry [key : v] of a mapping, [key] containing
    "qkv.conv.weight", the second pass calls [remap_qkv_], which returns the
    mapping without an entry at [key], with [v] itself at the key that has
    "to_qkv" for "qkv.conv", and with every other key as before; when the
    new key was not in the mapping, the mapping has as many entries as
    before. *)
Theorem remap_qkv_moves_entry :
  forall (V : Type) (state_dict : dict V) (key : string) (v : V),
    well_formed state_dict = true ->
    lookup key state_dict = Some v ->
    contains "qkv.conv.weight" key = true ->
    exists d',
      apply_handlers VAE_SPECIAL_KEYS_REMAP key state_dict = Ok d'
      /\ remap_qkv_ key state_dict = Ok d'
      /\ lookup key d' = None
      /\ lookup (replace "qkv.conv" "to_qkv" key) d' = Some v
      /\ (forall k, k <> key -> k <> replace "qkv.conv" "to_qkv" key ->
                    lookup k d' = lookup k state_dict)
      /\ well_formed d' = true
      /\ (contains_key (replace "qkv.conv" "to_qkv" key) state_dict = false ->
          length d' = length state_dict).
Proof.
  intros V state_dict key v Hwf Hlk Hc.
  pose proof (remap_qkv_changes_key key Hc) as Hne.
  destruct (lookup_split _ _ _ Hlk) as (N & R & -> & HkN).
  destruct (well_formed_split _ _ _ _ Hwf) as (_ & HkR & Hwf').
  assert (E : remap_qkv_ key (N ++ (key, v) :: R)
              = Ok (setitem (replace "qkv.conv" "to_qkv" key) v (N ++ R))).
  { unfold remap_qkv_. rewrite pop_app by exact HkN. reflexivity. }
  exists (setitem (replace "qkv.conv" "to_qkv" key) v (N ++ R)).
  split; [|split; [exact E|]].
  { cbn [VAE_SPECIAL_KEYS_REMAP apply_handlers]. rewrite Hc. cbn [negb].
    rewrite E. reflexivity. }
  split; [|split; [|split; [|split]]].
  - rewrite lookup_setitem_ne by (intros H; apply Hne; auto).
    apply lookup_None. rewrite keys_app, mem_app, HkN, HkR. reflexivity.
  - apply lookup_setitem_eq.
  - intros k Hk1 Hk2. rewrite lookup_setitem_ne by exact Hk2.
    rewrite !lookup_app. cbn [lookup].
    apply String.eqb_neq in Hk1. rewrite Hk1. reflexivity.
  - apply well_formed_setitem. exact Hwf'.
  - rewrite contains_key_mem, keys_app, mem_app.
    change (keys ((key, v) :: R)) with (key :: keys R). cbn [mem].
    intros H. apply orb_false_iff in H as [H1 H2].
    apply orb_false_iff in H2 as [_ H2].
    rewrite setitem_fresh by (rewrite keys_app, mem_app, H1, H2; reflexivity).
    rewrite !length_app. simpl. lia.
Qed.

Lemma remap_qkv_moves_entry_witness :
  exists d',
    apply_handlers VAE_SPECIAL_KEYS_REMAP "encoder.0.attn.qkv.conv.weight"
      [("encoder.conv_in.weight", 1); ("encoder.0.attn.qkv.conv.weight", 2)] = Ok d'
    /\ remap_qkv_ "encoder.0.attn.qkv.conv.weight"
         [("encoder.conv_in.weight", 1); ("encoder.0.attn.qkv.conv.weight", 2)] = Ok d'
    /\ lookup "encoder.0.attn.qkv.conv.weight" d' = None
    /\ lookup (replace "qkv.conv" "to_qkv" "encoder.0.attn.qkv.conv.weight") d' = Some 2
    /\ (forall k, k <> "encoder.0.attn.qkv.conv.weight" ->
                  k <> replace "qkv.conv" "to_qkv" "encoder.0.attn.qkv.conv.weight" ->
                  lookup k d'
                  = lookup k [("encoder.conv_in.weight", 1);
                              ("encoder.0.attn.qkv.conv.weight", 2)])
    /\ well_formed d' = true
    /\ (contains_key (replace "qkv.conv" "to_qkv" "encoder.0.attn.qkv.conv.weight")
          [("encoder.conv_in.weight", 1); ("encoder.0.attn.qkv.conv.weight", 2)] = false ->
        length d'
        = length [("encoder.conv_in.weight", 1); ("encoder.0.attn.qkv.conv.weight", 2)]).
Proof.
  apply (@remap_qkv_moves_entry nat); reflexivity.
Defined.

(** The rename pass without a clash: every entry under its new key, in the
    order of the mapping. *)
Lemma rename_pass_shape {V : Type} (d : dict V) :
  well_formed d = true ->
  no_clash rename_key [] (keys d) = true ->
  rename_pass d = Ok (map (fun kv => (rename_key (fst kv), snd kv)) d).
Proof.
  intros Hwf Hnc. unfold rename_pass. rewrite rename_loop_move.
  pose proof (move_loop_shape (fun _ => true) rename_key d [] [] []) as H.
  rewrite app_nil_r in H. cbn [app] in H.
  rewrite H; [|exact Hwf|apply incl_refl|exact Hnc].
  rewrite stays_all, moved_all. reflexivity.
Qed.

(** The special-key pass without a clash. *)
Lemma special_pass_shape {V : Type} (d : dict V) :
  well_formed d = true ->
  no_clash special_key [] (keys d) = true ->
  special_pass d
  = Ok (stays (contains "qkv.conv.weight") d
        ++ moved (contains "qkv.conv.weight") (replace "qkv.conv" "to_qkv") d).
Proof.
  intros Hwf Hnc. unfold special_pass. rewrite special_loop_move.
  pose proof (move_loop_shape (contains "qkv.conv.weight")
                (replace "qkv.conv" "to_qkv") d [] [] []) as H.
  rewrite app_nil_r in H. cbn [app] in H.
  apply H; [exact Hwf|apply incl_refl|exact Hnc].
Qed.

(** Both passes end, whatever the keys, and bring no value of their own. *)
Lemma remap_keys_total {V : Type} (d : dict V) :
  well_formed d = true ->
  exists d', remap_keys d = Ok d'
             /\ well_formed d' = true
             /\ incl (values d') (values d).
Proof.
  intros Hwf. unfold remap_keys, rename_pass, special_pass.
  rewrite rename_loop_move.
  destruct (move_loop_total (fun _ => true) rename_key (keys d) d)
    as (d1 & -> & Hwf1 & Hv1); auto.
  { intros k Hk. apply mem_In. exact Hk. }
  cbn [bind]. rewrite special_loop_move.
  destruct (move_loop_total (contains "qkv.conv.weight") (replace "qkv.conv" "to_qkv")
              (keys d1) d1) as (d2 & -> & Hwf2 & Hv2); auto.
  { intros k Hk. apply mem_In. exact Hk. }
  exists d2. repeat split; auto. eapply incl_tran; eauto.
Qed.

(** C10, as the code has it.  The passes of [convert_vae] end on every
    mapping, and each value of the result is a value of the input.  When, at
    each turn of either pass, the new key of the entry is not in the mapping
    (it is no key given to an earlier entry and no key of an entry still to
    come), the result holds each entry of the input once, with the value it
    had, under its final key: the values of the result are those of the
    input, each as often. *)
Theorem remap_keys_keeps_values :
  forall (V : Type) (state_dict : dict V),
    well_formed state_dict = true ->
    no_clash rename_key [] (keys state_dict) = true ->
    no_clash special_key [] (map rename_key (keys state_dict)) = true ->
    exists d',
      remap_keys state_dict = Ok d'
      /\ well_formed d' = true
      /\ Permutation d' (map (fun kv => (final_key (fst kv), snd kv)) state_dict)
      /\ Permutation (values d') (values state_dict).
Proof.
  intros V d Hwf H1 H2.
  destruct (remap_keys_total d Hwf) as (d' & Hd' & Hwf' & _).
  exists d'. split; [exact Hd'|]. split; [exact Hwf'|].
  unfold remap_keys in Hd'. rewrite (rename_pass_shape d Hwf H1) in Hd'.
  cbn [bind] in Hd'.
  set (d1 := map (fun kv => (rename_key (fst kv), snd kv)) d) in *.
  assert (Hk1 : keys d1 = map rename_key (keys d)).
  { unfold d1, keys. rewrite !map_map. reflexivity. }
  assert (Hwf1 : well_formed d1 = true).
  { destruct (move_loop_total (fun _ => true) rename_key (keys d) d)
      as (x & Hx & Hwfx & _); auto.
    { intros k Hk. apply mem_In. exact Hk. }
    rewrite <- rename_loop_move in Hx. fold (rename_pass d) in Hx.
    rewrite (rename_pass_shape d Hwf H1) in Hx. injection Hx as <-. exact Hwfx. }
  rewrite special_pass_shape in Hd'; [|exact Hwf1|rewrite Hk1; exact H2].
  injection Hd' as <-.
  assert (P : Permutation
                (stays (contains "qkv.conv.weight") d1
                 ++ moved (contains "qkv.conv.weight") (replace "qkv.conv" "to_qkv") d1)
                (map (fun kv => (final_key (fst kv), snd kv)) d)).
  { eapply Permutation_trans; [apply stays_moved_perm|].
    unfold d1. rewrite map_map. apply Permutation_refl. }
  split; [exact P|].
  unfold values. apply (Permutation_map snd) in P.
  rewrite map_map in P. exact P.
Qed.

Lemma remap_keys_keeps_values_witness :
  exists d',
    remap_keys [("encoder.project_in.conv.weight", 1);
                ("encoder.main.op_list.0.context_module.main.qkv.conv.weight", 2);
                ("decoder.norm.weight", 3)] = Ok d'
    /\ well_formed d' = true
    /\ Permutation d'
         (map (fun kv => (final_key (fst kv), snd kv))
              [("encoder.project_in.conv.weight", 1);
               ("encoder.main.op_list.0.context_module.main.qkv.conv.weight", 2);
               ("decoder.norm.weight", 3)])
    /\ Permutation (values d')
         (values [("encoder.project_in.conv.weight", 1);
                  ("encoder.main.op_list.0.context_module.main.qkv.conv.weight", 2);
                  ("decoder.norm.weight", 3)]).
Proof.
  apply (@remap_keys_keeps_values nat); reflexivity.
Defined.

(** C10, as it is claimed, fails.  In [{"main.norm.x": 1, "norm.norm.x": 2}]
    the keys are distinct, and so are the renamed keys ("norm.norm.x" and
    "norm.norm.norm.norm.x") and the final keys.  The first turn of the rename
    pass moves the value 1 to "norm.norm.x", over the entry that is waiting
    there, and the second turn moves it on: the result is
    [{"norm.norm.norm.norm.x": 1}], and the value 2 is gone. *)
Lemma remap_keys_loses_value :
  well_formed [("main.norm.x", 1); ("norm.norm.x", 2)] = true
  /\ map rename_key (keys [("main.norm.x", 1); ("norm.norm.x", 2)])
     = ["norm.norm.x"; "norm.norm.norm.norm.x"]
  /\ distinct (map rename_key (keys [("main.norm.x", 1); ("norm.norm.x", 2)])) = true
  /\ distinct (map final_key (keys [("main.norm.x", 1); ("norm.norm.x", 2)])) = true
  /\ rename_pass [("main.norm.x", 1); ("norm.norm.x", 2)]
     = Ok [("norm.norm.norm.norm.x", 1)]
  /\ remap_keys [("main.norm.x", 1); ("norm.norm.x", 2)]
     = Ok [("norm.norm.norm.norm.x", 1)]
  /\ ~ In 2 (values [("norm.norm.norm.norm.x", 1)])
  /\ ~ Permutation (values [("norm.norm.norm.norm.x", 1)])
                   (values [("main.norm.x", 1); ("norm.norm.x", 2)]).
Proof.
  repeat (split; [reflexivity|]). split.
  - simpl. intros [H|[]]. discriminate.
  - intros H. apply Permutation_length in H. discriminate.
Qed.

End RemapFacts.

(** ** The presets *)

Module PresetFacts.

Lemma get_vae_config_mem (name : string) :
  if mem name preset_names
  then exists config, get_vae_config name = Ok config
  else get_vae_config name = Raise (UnboundLocalError "config").
Proof.
  unfold get_vae_config, preset_names. cbn [mem].
  repeat match goal with
         | |- context [String.eqb name ?s] => destruct (String.eqb name s); cbn [orb]
         end; eauto.
Qed.

(** C9.  [get_vae_config] returns a configuration for the seven names of
    the presets and for no other name; for every other name it raises, the
    variable [config] being unbound at [return config]. *)
Theorem get_vae_config_presets :
  forall name,
    (In name preset_names <-> exists config, get_vae_config name = Ok config)
    /\ (~ In name preset_names
        <-> get_vae_config name = Raise (UnboundLocalError "config")).
Proof.
  intros name. pose proof (get_vae_config_mem name) as H.
  destruct (mem name preset_names) eqn:E.
  - apply mem_In in E. destruct H as [config H]. split; split.
    + eauto.
    + intros _. exact E.
    + intros Hn. contradiction.
    + rewrite H. discriminate.
  - apply mem_false in E. split; split.
    + intros Hin. contradiction.
    + intros [config Hc]. rewrite H in Hc. discriminate.
    + intros _. exact H.
    + intros _. exact E.
Qed.

End PresetFacts.

(** ** The transformer *)

Module SanaFacts.

Import Sana.

(** A zero times a finite number is a zero. *)
Lemma fmul_zero_finite (dt : dtype) (g a : spec_float) :
  is_zero g = true -> is_finite a = true -> is_zero (fmul dt g a) = true.
Proof.
  destruct g; try discriminate. destruct a; try discriminate; reflexivity.
Qed.

(** Adding a zero changes nothing, but for the sign of a zero. *)
Lemma fadd_zero_r (dt : dtype) (h z : spec_float) :
  is_zero z = true -> unchanged (fadd dt h z) h.
Proof.
  destruct z as [sz| | |]; try discriminate. intros _.
  destruct h as [[|]| | |]; destruct sz; cbv; auto.
Qed.

(** An unchanged element that is a number compares equal ([==]) to what it
    was. *)
Lemma unchanged_SFeqb (after before : spec_float) :
  unchanged after before -> before <> S754_nan -> SFeqb after before = true.
Proof.
  intros [->|[-> ->]] Hn; [|reflexivity].
  destruct before as [s|[|]| |[|] m e]; try reflexivity; try congruence;
    unfold SFeqb, SFcompare; rewrite Z.compare_refl, Pos.compare_cont_refl;
    reflexivity.
Qed.

Lemma gated_residual_zero_gate (dt : dtype) (hidden_states gate output : tensor3) :
  (forall b c, is_zero (gate b 0 c) = true) ->
  (forall b n c, is_finite (output b n c) = true) ->
  forall b n c,
    unchanged (gated_residual dt hidden_states gate output b n c) (hidden_states b n c).
Proof.
  intros Hg Ho b n c. unfold gated_residual.
  apply fadd_zero_r, fmul_zero_finite; auto.
Qed.

Lemma forward_branches dt dim table norm1 attn1 attn2 norm2 ff
  hidden_states attention_mask encoder_hidden_states encoder_attention_mask timestep HW :
  forward dt dim table norm1 attn1 attn2 norm2 ff hidden_states attention_mask
    encoder_hidden_states encoder_attention_mask timestep HW
  = branch dt dim table norm1 attn1 norm2 ff FeedForward
      (cross_attention dt attn2
         (branch dt dim table norm1 attn1 norm2 ff SelfAttention hidden_states timestep HW)
         encoder_hidden_states encoder_attention_mask)
      timestep HW.
Proof. reflexivity. Qed.

(** C7.  In a block of any dtype, with any parameters and sub-modules, take
    a gated branch (self attention or feed-forward), the residual stream
    entering it, and an index.  When the element of the gate of the branch
    ([gate_msa] or [gate_mlp], the third or sixth chunk of the modulation)
    for that batch and channel is a zero, and the element of the output of
    the branch at the index is finite, the residual stream leaving the branch
    has at the index the element that entered: the same float, where only a
    negative zero may have become the positive zero; unless it is a NaN, it
    compares equal ([==]) to the element that entered. *)
Theorem zero_gate_keeps_residual :
  forall (dt : dtype) (dim : nat) (scale_shift_table : tensor2)
         (norm1 attn1 norm2 : tensor3 -> tensor3)
         (ff : tensor3 -> option (nat * nat) -> tensor3)
         (br : gated_branch)
         (hidden_states : tensor3) (timestep : tensor2) (HW : option (nat * nat))
         (b n c : nat),
    is_zero (branch_gate dt dim scale_shift_table br timestep b 0 c) = true ->
    is_finite (branch_output dt dim scale_shift_table norm1 attn1 norm2 ff br
                 hidden_states timestep HW b n c) = true ->
    unchanged
      (branch dt dim scale_shift_table norm1 attn1 norm2 ff br
         hidden_states timestep HW b n c)
      (hidden_states b n c)
    /\ (hidden_states b n c <> S754_nan ->
        SFeqb (branch dt dim scale_shift_table norm1 attn1 norm2 ff br
                 hidden_states timestep HW b n c)
              (hidden_states b n c) = true).
Proof.
  intros dt dim table norm1 attn1 norm2 ff br hidden timestep HW b n c Hg Ho.
  assert (U : unchanged
                (branch dt dim table norm1 attn1 norm2 ff br hidden timestep HW b n c)
                (hidden b n c)).
  { destruct br; cbn [branch branch_gate branch_output] in *;
      unfold self_attention, feed_forward, gated_residual;
      apply fadd_zero_r, fmul_zero_finite; assumption. }
  split; [exact U|]. apply unchanged_SFeqb. exact U.
Qed.

(** A block of one channel in float32 whose table holds 1 for the gate of
    the self attention, with a timestep embedding that holds -1 there. *)
Lemma zero_gate_keeps_residual_witness :
  unchanged
    (branch float32 1
       (fun i _ => if Nat.eqb i 2 then of_int float32 1 else S754_zero false)
       (fun x => x) (fun x => x) (fun x => x) (fun x _ => x) SelfAttention
       (fun _ _ _ => of_int float32 3)
       (fun _ j => if Nat.eqb j 2 then of_int float32 (-1) else S754_zero false)
       None 0 0 0)
    (of_int float32 3).
Proof.
  refine (proj1 (zero_gate_keeps_residual float32 1
           (fun i _ => if Nat.eqb i 2 then of_int float32 1 else S754_zero false)
           (fun x => x) (fun x => x) (fun x => x) (fun x _ => x) SelfAttention
           (fun _ _ _ => of_int float32 3)
           (fun _ j => if Nat.eqb j 2 then of_int float32 (-1) else S754_zero false)
           None 0 0 0 _ _)).
  - vm_compute. reflexivity.
  - vm_compute. reflexivity.
Defined.

(** *** The masks *)

Lemma mask_to_bias_data (dt : dtype) (mask : tensor scalar) :
  data (mask_to_bias dt mask) = map (fun s => Float (bias_of dt s)) (data mask).
Proof.
  unfold mask_to_bias, mul_scalar, rsub, to, unsqueeze, map_tensor, bias_of.
  cbn [data]. rewrite !map_map. reflexivity.
Qed.

Lemma mask_to_bias_shape (dt : dtype) (mask : tensor scalar) :
  shape (mask_to_bias dt mask) = firstn 1 (shape mask) ++ 1 :: skipn 1 (shape mask).
Proof. reflexivity. Qed.

(** In every dtype, 1 (keep) becomes the negative zero and 0 (discard)
    becomes [-10000.0] as the dtype has it. *)
Lemma bias_of_keep (dt : dtype) : bias_of dt (Int 1) = S754_zero true.
Proof. destruct dt; vm_compute; reflexivity. Qed.

Lemma bias_of_discard (dt : dtype) : bias_of dt (Int 0) = round_to dt neg_10000.
Proof. destruct dt; vm_compute; reflexivity. Qed.

Lemma same_float_eq (x y : spec_float) : same_float x y = true -> x = y.
Proof.
  destruct x as [s|s| |s m e], y as [s'|s'| |s' m' e']; simpl; try discriminate;
    try reflexivity.
  - intros H. apply Bool.eqb_prop in H. congruence.
  - intros H. apply Bool.eqb_prop in H. congruence.
  - rewrite !andb_true_iff. intros [[H1 H2] H3].
    apply Bool.eqb_prop in H1. apply Pos.eqb_eq in H2. apply Z.eqb_eq in H3.
    congruence.
Qed.

(** The float 1.0 of any dtype, brought to any dtype, is a keep. *)
Lemma bias_of_keep_float (dt dt' : dtype) :
  bias_of dt (Float (of_int dt' 1)) = S754_zero true.
Proof. destruct dt, dt'; vm_compute; reflexivity. Qed.

Lemma bias_of_discard_float (dt : dtype) (x : spec_float) :
  is_zero x = true -> bias_of dt (Float x) = round_to dt neg_10000.
Proof.
  destruct x as [[|]| | |]; try discriminate; intros _;
    destruct dt; vm_compute; reflexivity.
Qed.

Lemma keeps_not_discards (s : scalar) : keeps s = true -> discards s = false.
Proof.
  destruct s as [n|x]; cbn [keeps discards existsb].
  - rewrite Z.eqb_eq. intros ->. reflexivity.
  - rewrite !orb_true_iff.
    intros [H|[H|[H|[H|H]]]]; try discriminate;
      apply same_float_eq in H; subst x; reflexivity.
Qed.

Lemma bias_of_boolean (dt : dtype) (s : scalar) :
  boolean_style s = true ->
  bias_of dt s = if keeps s then S754_zero true else round_to dt neg_10000.
Proof.
  unfold boolean_style. destruct (keeps s) eqn:K; simpl.
  - intros _. destruct s as [n|x]; cbn [keeps existsb] in K.
    + apply Z.eqb_eq in K as ->. apply bias_of_keep.
    + rewrite !orb_true_iff in K.
      destruct K as [H|[H|[H|[H|H]]]]; try discriminate;
        apply same_float_eq in H; subst x; apply bias_of_keep_float.
  - intros D. destruct s as [n|x]; cbn [discards] in D.
    + apply Z.eqb_eq in D as ->. apply bias_of_discard.
    + apply bias_of_discard_float. exact D.
Qed.

(** The number [-10000.0] is in float16, float32 and float64; bfloat16, with
    eight bits of significand, has -9984 in its place. *)
Lemma neg_10000_in_dtype (dt : dtype) :
  is_integer (round_to dt neg_10000)
             (match dt with bfloat16 => -9984 | _ => -10000 end) = true.
Proof. destruct dt; vm_compute; reflexivity. Qed.

(** C8.  No mask stays no mask, and a mask whose rank is not 2 is handed on
    as it is.  A mask of shape [(b, k)] becomes a bias of shape [(b, 1, k)]
    with the elements in their order, each element [s] replaced by
    [(1 - s) * -10000.0] as torch computes it for the dtype of the hidden
    states.  Where the mask is boolean-style (integers, booleans or floats),
    an element 1 (keep) becomes a zero (the negative zero of the dtype) and
    an element 0 (discard) becomes [-10000.0], the float that the Python
    number [-10000.0] is in the dtype: the number -10000 in float16, float32
    and float64, and in bfloat16, which has eight bits of significand, the
    nearest number it has, -9984.  [forward] does this to both of its
    masks. *)
Theorem prepare_mask_bias :
  forall (dt : dtype) (mask : tensor scalar),
    prepare_mask dt None = None
    /\ (ndim mask <> 2 -> prepare_mask dt (Some mask) = Some mask)
    /\ (forall b k,
           shape mask = [b; k] ->
           prepare_mask dt (Some mask)
           = Some {| shape := [b; 1; k];
                     data := map (fun s => Float (bias_of dt s)) (data mask) |})
    /\ (forall b k,
           shape mask = [b; k] ->
           Forall (fun s => boolean_style s = true) (data mask) ->
           prepare_mask dt (Some mask)
           = Some {| shape := [b; 1; k];
                     data := map (fun s => Float (if keeps s then S754_zero true
                                                  else round_to dt neg_10000))
                                 (data mask) |})
    /\ (ndim mask = 2 <-> exists b k, shape mask = [b; k])
    /\ is_integer (round_to dt neg_10000)
                  (match dt with bfloat16 => -9984 | _ => -10000 end) = true
    /\ (forall encoder_attention_mask attention_mask,
           forward_masks dt encoder_attention_mask attention_mask
           = (prepare_mask dt attention_mask, prepare_mask dt encoder_attention_mask)).
Proof.
  intros dt mask.
  assert (H2 : forall b k,
             shape mask = [b; k] ->
             prepare_mask dt (Some mask)
             = Some {| shape := [b; 1; k];
                       data := map (fun s => Float (bias_of dt s)) (data mask) |}).
  { intros b k Hs. unfold prepare_mask, ndim. rewrite Hs. cbn [length Nat.eqb].
    f_equal.
    pose proof (mask_to_bias_data dt mask) as Hd.
    pose proof (mask_to_bias_shape dt mask) as Hsh.
    destruct (mask_to_bias dt mask) as [sh dat]. cbn [data shape] in Hd, Hsh.
    rewrite Hd, Hsh, Hs. reflexivity. }
  split; [reflexivity|]. split; [|split; [exact H2|split; [|split; [|split]]]].
  - intros H. unfold prepare_mask. apply Nat.eqb_neq in H. rewrite H. reflexivity.
  - intros b k Hs Hb. rewrite (H2 b k Hs). do 2 f_equal.
    apply map_ext_in. intros s Hin. f_equal.
    apply bias_of_boolean. rewrite Forall_forall in Hb. auto.
  - unfold ndim. split.
    + destruct (shape mask) as [|b [|k [|x l]]]; try discriminate. eauto.
    + intros (b & k & ->). reflexivity.
  - apply neg_10000_in_dtype.
  - reflexivity.
Qed.

(** A mask of two rows in float16: [[1, 1, 0], [1, 0, 0]]. *)
Lemma prepare_mask_bias_witness :
  prepare_mask float16
    (Some {| shape := [2; 3]; data := [Int 1; Int 1; Int 0; Int 1; Int 0; Int 0] |})
  = Some {| shape := [2; 1; 3];
            data := map (fun s => Float (if keeps s then S754_zero true
                                         else round_to float16 neg_10000))
                        [Int 1; Int 1; Int 0; Int 1; Int 0; Int 0] |}.
Proof.
  refine (proj1 (proj2 (proj2 (proj2
            (prepare_mask_bias float16
               {| shape := [2; 3];
                  data := [Int 1; Int 1; Int 0; Int 1; Int 0; Int 0] |})))) 2 3 _ _).
  - reflexivity.
  - repeat constructor.
Defined.

End SanaFacts.

(** * Further facts *)

(** ** Dictionaries, continued *)

Module PyDictMore.

Section Facts.
Context {V : Type}.
Implicit Types (d N R : dict V) (k : string) (v : V).

Lemma pop_absent k d : mem k (keys d) = false -> pop k d = Raise (KeyError k).
Proof.
  induction d as [|[k' v'] d IH]; simpl; [reflexivity|].
  destruct (String.eqb k k'); simpl; [discriminate|].
  intros H. rewrite IH by exact H. reflexivity.
Qed.

Lemma length_setitem k v d :
  length (setitem k v d) = if mem k (keys d) then length d else S (length d).
Proof.
  induction d as [|[k' v'] d IH]; simpl; [reflexivity|].
  destruct (String.eqb k k'); simpl; [reflexivity|].
  rewrite IH. destruct (mem k (keys d)); reflexivity.
Qed.

Lemma filter_absent k (l : list string) :
  mem k l = false -> filter (fun x => negb (String.eqb x k)) l = l.
Proof.
  induction l as [|x l IH]; simpl; [reflexivity|].
  rewrite String.eqb_sym. destruct (String.eqb x k); simpl; [discriminate|].
  intros H. rewrite IH by exact H. reflexivity.
Qed.

(** The keys of a dictionary without one entry. *)
Lemma keys_without k v N R :
  mem k (keys N) = false -> mem k (keys R) = false ->
  filter (fun x => negb (String.eqb x k)) (keys (N ++ (k, v) :: R)) = keys (N ++ R).
Proof.
  intros HN HR. rewrite !keys_app. change (keys ((k, v) :: R)) with (k :: keys R).
  rewrite filter_app. cbn [filter]. rewrite String.eqb_refl. cbn [negb].
  rewrite !filter_absent by assumption. reflexivity.
Qed.

(** Looking up in a well-formed dictionary without one entry. *)
Lemma lookup_without k v N R :
  mem k (keys N) = false -> mem k (keys R) = false ->
  forall k', lookup k' (N ++ R)
             = if String.eqb k' k then None else lookup k' (N ++ (k, v) :: R).
Proof.
  intros HN HR k'. destruct (String.eqb k' k) eqn:E.
  - apply String.eqb_eq in E as ->. apply lookup_None.
    rewrite keys_app, mem_app, HN, HR. reflexivity.
  - rewrite !lookup_app. cbn [lookup]. rewrite E. reflexivity.
Qed.

Lemma mem_keys_without k v N R k' :
  String.eqb k' k = false ->
  mem k' (keys (N ++ R)) = mem k' (keys (N ++ (k, v) :: R)).
Proof.
  intros E. rewrite !keys_app, !mem_app. change (keys ((k, v) :: R)) with (k :: keys R).
  cbn [mem]. rewrite E. reflexivity.
Qed.

End Facts.

End PyDictMore.

Import PyDictMore.

(** ** The helpers of the converter on one entry *)

Module EntryFacts.

(** X1.  [update_state_dict_], [remove_keys_] and [remap_qkv_] all start
    with [state_dict.pop(key)]: on a key that is not in the mapping each of
    them raises [KeyError] for that key, whatever the new key. *)
Theorem missing_key_raises :
  forall (V : Type) (state_dict : dict V) (key new_key : string),
    contains_key key state_dict = false ->
    update_state_dict_ state_dict key new_key = Raise (KeyError key)
    /\ remove_keys_ key state_dict = Raise (KeyError key)
    /\ remap_qkv_ key state_dict = Raise (KeyError key).
Proof.
  intros V d key new_key H. rewrite contains_key_mem in H.
  unfold update_state_dict_, remove_keys_, remap_qkv_.
  rewrite (pop_absent _ _ H). repeat split.
Qed.

Lemma missing_key_raises_witness :
  update_state_dict_ [("encoder.conv_in.weight", 1)] "decoder.conv_in.weight" "x"
  = Raise (KeyError "decoder.conv_in.weight")
  /\ remove_keys_ "decoder.conv_in.weight" [("encoder.conv_in.weight", 1)]
     = Raise (KeyError "decoder.conv_in.weight")
  /\ remap_qkv_ "decoder.conv_in.weight" [("encoder.conv_in.weight", 1)]
     = Raise (KeyError "decoder.conv_in.weight").
Proof.
  apply (@missing_key_raises nat). reflexivity.
Defined.

(** X2.  [update_state_dict_] on an entry [old_key : v] of a mapping, as an
    operation on the mapping: afterwards [new_key] holds [v], [old_key]
    holds nothing (unless it is [new_key]), and every other key holds what it
    held.  An entry that was at [new_key] is overwritten without notice: the
    mapping is then one entry shorter; otherwise it keeps its length. *)
Theorem update_state_dict_as_map :
  forall (V : Type) (state_dict : dict V) (old_key new_key : string) (v : V),
    well_formed state_dict = true ->
    lookup old_key state_dict = Some v ->
    exists d',
      update_state_dict_ state_dict old_key new_key = Ok d'
      /\ well_formed d' = true
      /\ (forall k,
             lookup k d'
             = if String.eqb k new_key then Some v
               else if String.eqb k old_key then None
                    else lookup k state_dict)
      /\ length d'
         = if String.eqb new_key old_key || negb (contains_key new_key state_dict)
           then length state_dict
           else length state_dict - 1.
Proof.
  intros V d old new v Hwf Hlk.
  destruct (lookup_split _ _ _ Hlk) as (N & R & -> & HkN).
  destruct (well_formed_split _ _ _ _ Hwf) as (_ & HkR & Hwf').
  exists (setitem new v (N ++ R)).
  split; [|split; [|split]].
  - unfold update_state_dict_. rewrite pop_app by exact HkN. reflexivity.
  - apply well_formed_setitem. exact Hwf'.
  - intros k. destruct (String.eqb k new) eqn:E.
    + apply String.eqb_eq in E as ->. apply lookup_setitem_eq.
    + rewrite lookup_setitem_ne by (apply String.eqb_neq; exact E).
      apply lookup_without; assumption.
  - rewrite length_setitem, contains_key_mem, !length_app. cbn [length].
    destruct (String.eqb new old) eqn:E.
    + apply String.eqb_eq in E as ->.
      rewrite keys_app, mem_app, HkN, HkR. cbn [orb]. lia.
    + rewrite (mem_keys_without old v N R new E). cbn [orb].
      destruct (mem new (keys (N ++ (old, v) :: R))); cbn [negb]; lia.
Qed.

Lemma update_state_dict_as_map_witness :
  exists d',
    update_state_dict_ [("main.norm.x", 1); ("norm.norm.x", 2)] "main.norm.x" "norm.norm.x"
    = Ok d'
    /\ well_formed d' = true
    /\ (forall k,
           lookup k d'
           = if String.eqb k "norm.norm.x" then Some 1
             else if String.eqb k "main.norm.x" then None
                  else lookup k [("main.norm.x", 1); ("norm.norm.x", 2)])
    /\ length d'
       = if String.eqb "norm.norm.x" "main.norm.x"
            || negb (contains_key "norm.norm.x" [("main.norm.x", 1); ("norm.norm.x", 2)])
         then length [("main.norm.x", 1); ("norm.norm.x", 2)]
         else length [("main.norm.x", 1); ("norm.norm.x", 2)] - 1.
Proof.
  apply (@update_state_dict_as_map nat); reflexivity.
Defined.

(** X3.  Where [update_state_dict_] leaves the entries: a new key that is
    not in the mapping goes last, also when it is the old key itself, so a
    key "renamed" to itself moves to the end; a new key that is in the
    mapping, at another entry, stays where it is.  The other keys keep
    their order. *)
Theorem update_state_dict_order :
  forall (V : Type) (state_dict : dict V) (old_key new_key : string) (v : V),
    well_formed state_dict = true ->
    lookup old_key state_dict = Some v ->
    exists d',
      update_state_dict_ state_dict old_key new_key = Ok d'
      /\ keys d'
         = if String.eqb new_key old_key || negb (contains_key new_key state_dict)
           then filter (fun k => negb (String.eqb k old_key)) (keys state_dict)
                ++ [new_key]
           else filter (fun k => negb (String.eqb k old_key)) (keys state_dict).
Proof.
  intros V d old new v Hwf Hlk.
  destruct (lookup_split _ _ _ Hlk) as (N & R & -> & HkN).
  destruct (well_formed_split _ _ _ _ Hwf) as (_ & HkR & Hwf').
  exists (setitem new v (N ++ R)). split.
  - unfold update_state_dict_. rewrite pop_app by exact HkN. reflexivity.
  - rewrite keys_setitem, contains_key_mem, keys_without by assumption.
    destruct (String.eqb new old) eqn:E.
    + apply String.eqb_eq in E as ->.
      rewrite keys_app, mem_app, HkN, HkR. reflexivity.
    + rewrite <- (mem_keys_without old v N R new E). cbn [orb].
      destruct (mem new (keys (N ++ R))); reflexivity.
Qed.

Lemma update_state_dict_order_witness :
  exists d',
    update_state_dict_ [("a", 1); ("b", 2); ("c", 3)] "a" "a" = Ok d'
    /\ keys d'
       = if String.eqb "a" "a" || negb (contains_key "a" [("a", 1); ("b", 2); ("c", 3)])
         then filter (fun k => negb (String.eqb k "a")) (keys [("a", 1); ("b", 2); ("c", 3)])
              ++ ["a"]
         else filter (fun k => negb (String.eqb k "a")) (keys [("a", 1); ("b", 2); ("c", 3)]).
Proof.
  apply (@update_state_dict_order nat _ _ _ 1); reflexivity.
Defined.

(** X4.  [remove_keys_] takes out the entry of the key and nothing else:
    the key holds nothing afterwards, the other keys hold what they held,
    in the order they had, and the mapping is one entry shorter. *)
Theorem remove_keys_removes_one :
  forall (V : Type) (state_dict : dict V) (key : string) (v : V),
    well_formed state_dict = true ->
    lookup key state_dict = Some v ->
    exists d',
      remove_keys_ key state_dict = Ok d'
      /\ well_formed d' = true
      /\ (forall k, lookup k d' = if String.eqb k key then None else lookup k state_dict)
      /\ keys d' = filter (fun k => negb (String.eqb k key)) (keys state_dict)
      /\ S (length d') = length state_dict.
Proof.
  intros V d key v Hwf Hlk.
  destruct (lookup_split _ _ _ Hlk) as (N & R & -> & HkN).
  destruct (well_formed_split _ _ _ _ Hwf) as (_ & HkR & Hwf').
  exists (N ++ R). split; [|split; [exact Hwf'|split; [|split]]].
  - unfold remove_keys_. rewrite pop_app by exact HkN. reflexivity.
  - apply lookup_without; assumption.
  - symmetry. apply keys_without; assumption.
  - rewrite !length_app. cbn [length]. lia.
Qed.

Lemma remove_keys_removes_one_witness :
  exists d',
    remove_keys_ "b" [("a", 1); ("b", 2); ("c", 3)] = Ok d'
    /\ well_formed d' = true
    /\ (forall k, lookup k d'
                  = if String.eqb k "b" then None
                    else lookup k [("a", 1); ("b", 2); ("c", 3)])
    /\ keys d' = filter (fun k => negb (String.eqb k "b")) (keys [("a", 1); ("b", 2); ("c", 3)])
    /\ S (length d') = length [("a", 1); ("b", 2); ("c", 3)].
Proof.
  apply (@remove_keys_removes_one nat _ _ 2); reflexivity.
Defined.

End EntryFacts.

(** ** The unwrap step, continued *)

Module UnwrapMore.

Lemma contains_key_lookup {V : Type} (k : string) (d : dict V) (v : V) :
  lookup k d = Some v -> contains_key k d = true.
Proof. unfold contains_key. intros ->. reflexivity. Qed.

Lemma getitem_lookup {V : Type} (k : string) (d : dict V) (v : V) :
  lookup k d = Some v -> getitem k d = Ok v.
Proof. unfold getitem. intros ->. reflexivity. Qed.

Lemma getitem_absent {V : Type} (k : string) (d : dict V) :
  contains_key k d = false -> getitem k d = Raise (KeyError k).
Proof.
  unfold contains_key, getitem. destruct (lookup k d); [discriminate|reflexivity].
Qed.

Lemma unwrap_one_wrapper {T : Type} (d : dict (value T)) (k : string) (v : value T) :
  In k wrapper_keys ->
  lookup k d = Some v ->
  other_wrappers_absent k d = true ->
  get_state_dict d = Ok v.
Proof.
  intros Hk Hlk Ho.
  pose proof (contains_key_lookup _ _ _ Hlk) as Hc.
  pose proof (getitem_lookup _ _ _ Hlk) as Hg.
  unfold other_wrappers_absent, wrapper_keys in Ho. cbn [forallb] in Ho.
  rewrite !andb_true_iff in Ho. destruct Ho as (H1 & H2 & H3 & _).
  unfold get_state_dict.
  destruct Hk as [<-|[<-|[<-|[]]]]; cbn in H1, H2, H3;
    rewrite ?negb_true_iff in *; rewrite Hc, ?H1, ?H2, ?H3; cbn [bind subscript];
    rewrite Hg; reflexivity.
Qed.

(** X5.  A mapping with one of the keys "model", "module", "state_dict" and
    neither of the other two unwraps to the value of that key, whatever the
    value is and whatever it holds. *)
Theorem get_state_dict_one_wrapper :
  forall (T : Type) (saved_dict : dict (value T)) (k : string) (v : value T),
    In k wrapper_keys ->
    lookup k saved_dict = Some v ->
    other_wrappers_absent k saved_dict = true ->
    get_state_dict saved_dict = Ok v.
Proof.
  intros T d k v. apply unwrap_one_wrapper.
Qed.

Lemma get_state_dict_one_wrapper_witness :
  get_state_dict [("epoch", Tensor 0); ("state_dict", Dict [("w", Tensor 1)])]
  = Ok (Dict [("w", Tensor 1)]).
Proof.
  apply (@get_state_dict_one_wrapper nat _ "state_dict"); [simpl; auto|reflexivity..].
Defined.

(** X6.  Two wrapper keys side by side in the mapping make the unwrap step
    fail unless they are nested as well: the second one is looked up in the
    value of the first.  With [k1] before [k2] in the order "model",
    "module", "state_dict", both in the mapping and the third not, and the
    value of [k1] a mapping without [k2], the step raises [KeyError] for
    [k2]. *)
Theorem get_state_dict_sibling_wrappers :
  forall (T : Type) (saved_dict inner : dict (value T)) (k1 k2 : string),
    In (k1, k2) [("model", "module"); ("model", "state_dict"); ("module", "state_dict")] ->
    lookup k1 saved_dict = Some (Dict inner) ->
    contains_key k2 saved_dict = true ->
    forallb (fun k => String.eqb k k1 || String.eqb k k2 || negb (contains_key k saved_dict))
            wrapper_keys = true ->
    contains_key k2 inner = false ->
    get_state_dict saved_dict = Raise (KeyError k2).
Proof.
  intros T d inner k1 k2 Hk Hlk Hc2 Ho Hin.
  pose proof (contains_key_lookup _ _ _ Hlk) as Hc1.
  pose proof (getitem_lookup _ _ _ Hlk) as Hg.
  pose proof (getitem_absent _ _ Hin) as Hg2.
  cbn [forallb wrapper_keys] in Ho. rewrite !andb_true_iff in Ho.
  destruct Ho as (H1 & H2 & H3 & _).
  unfold get_state_dict.
  destruct Hk as [[= <- <-]|[[= <- <-]|[[= <- <-]|[]]]]; cbn in H1, H2, H3;
    rewrite ?negb_true_iff in *; rewrite Hc1, Hc2, ?H1, ?H2, ?H3;
    cbn [bind subscript]; rewrite Hg; cbn [bind subscript]; rewrite Hg2; reflexivity.
Qed.

Lemma get_state_dict_sibling_wrappers_witness :
  get_state_dict [("model", Dict [("w", Tensor 1)]); ("state_dict", Dict [("w", Tensor 2)])]
  = Raise (KeyError "state_dict").
Proof.
  apply (@get_state_dict_sibling_wrappers nat _ [("w", Tensor 1)] "model" "state_dict");
    [simpl; auto|reflexivity..].
Defined.

(** X7.  A wrapper key that holds a tensor, the other two keys absent: the
    unwrap step returns the tensor, and [convert_vae], which asks it for its
    keys, fails. *)
Theorem convert_vae_tensor_under_wrapper :
  forall (T : Type) (loaded : dict (value T)) (k : string) (t : T),
    In k wrapper_keys ->
    lookup k loaded = Some (Tensor t) ->
    other_wrappers_absent k loaded = true ->
    get_state_dict loaded = Ok (Tensor t)
    /\ convert_vae loaded = Raise NotAMapping.
Proof.
  intros T d k t Hk Hlk Ho.
  assert (E : get_state_dict d = Ok (Tensor t)).
  { eapply unwrap_one_wrapper; eauto. }
  split; [exact E|]. unfold convert_vae. rewrite E. reflexivity.
Qed.

Lemma convert_vae_tensor_under_wrapper_witness :
  get_state_dict [("model", Tensor 1)] = Ok (Tensor 1)
  /\ convert_vae [("model", Tensor 1)] = Raise NotAMapping.
Proof.
  apply (@convert_vae_tensor_under_wrapper nat _ "model"); [simpl; auto|reflexivity..].
Defined.

End UnwrapMore.

(** ** The two passes, continued *)

Module PassMore.

Import PassFacts RemapFacts.

Section Bounds.
Context {V : Type}.
Variable select : string -> bool.
Variable f : string -> string.

(** A loop never makes the mapping longer, and every key it leaves is the
    target of a key of the snapshot or a key that was not in the snapshot. *)
Lemma move_loop_bounds (ks : list string) : forall (d d' : dict V),
  distinct ks = true ->
  (forall k, In k ks -> mem k (keys d) = true) ->
  well_formed d = true ->
  move_loop select f ks d = Ok d' ->
  length d' <= length d
  /\ forall x, In x (keys d') ->
               In x (map (target select f) ks) \/ (In x (keys d) /\ ~ In x ks).
Proof.
  induction ks as [|k ks IH]; intros d d' Hks Hall Hwf Hrun.
  - simpl in Hrun. injection Hrun as <-. split; [lia|]. intros x Hx. right. auto.
  - simpl in Hks. apply andb_true_iff in Hks as [Hk Hks].
    apply negb_true_iff in Hk. apply mem_false in Hk.
    cbn [move_loop] in Hrun. unfold target. cbn [map].
    destruct (select k) eqn:Hs.
    + destruct (pop_present k d (Hall k (or_introl eq_refl))) as (v & d0 & Hpop).
      unfold update_state_dict_ in Hrun. rewrite Hpop in Hrun. cbn [bind] in Hrun.
      destruct (pop_inv _ _ _ _ Hpop) as (N & R & -> & -> & HkN).
      destruct (well_formed_split _ _ _ _ Hwf) as (_ & HkR & Hwf0).
      destruct (IH (setitem (f k) v (N ++ R)) d') as [Hlen Hkeys]; auto.
      * intros k' Hk'. specialize (Hall k' (or_intror Hk')).
        assert (Hne : String.eqb k' k = false).
        { apply String.eqb_neq. intros ->. auto. }
        rewrite <- (mem_keys_without k v N R k' Hne) in Hall.
        rewrite keys_setitem.
        destruct (mem (f k) (keys (N ++ R))); [exact Hall|].
        rewrite mem_app, Hall. reflexivity.
      * apply well_formed_setitem. exact Hwf0.
      * split.
        -- rewrite length_setitem in Hlen. rewrite !length_app in *. cbn [length].
           destruct (mem (f k) (keys (N ++ R))); lia.
        -- intros x Hx. destruct (Hkeys x Hx) as [Hx'|[Hx1 Hx2]]; [left; right; exact Hx'|].
           rewrite keys_setitem in Hx1.
           assert (Hx3 : In x (keys (N ++ R)) \/ x = f k).
           { destruct (mem (f k) (keys (N ++ R))); [auto|].
             apply in_app_or in Hx1 as [H|[H|[]]]; auto. }
           destruct Hx3 as [Hx3| ->]; [|left; left; reflexivity].
           right. assert (Hxk : x <> k).
           { intros ->. apply mem_In in Hx3.
             rewrite keys_app, mem_app, HkN, HkR in Hx3. discriminate. }
           split.
           ++ apply mem_In. apply mem_In in Hx3.
              rewrite <- (mem_keys_without k v N R x); [exact Hx3|].
              apply String.eqb_neq. exact Hxk.
           ++ intros [H|H]; [congruence|auto].
    + cbn [bind] in Hrun.
      destruct (IH d d') as [Hlen Hkeys]; auto.
      { intros k' Hk'. apply Hall. right. exact Hk'. }
      split; [exact Hlen|].
      intros x Hx. destruct (Hkeys x Hx) as [Hx'|[Hx1 Hx2]]; [left; right; exact Hx'|].
      destruct (String.eqb x k) eqn:E.
      * apply String.eqb_eq in E as ->. left. left. reflexivity.
      * right. split; [exact Hx1|]. apply String.eqb_neq in E.
        intros [H|H]; [congruence|auto].
Qed.

(** One pass over all the keys of a mapping. *)
Lemma pass_bounds (d : dict V) :
  well_formed d = true ->
  exists d',
    move_loop select f (keys d) d = Ok d'
    /\ well_formed d' = true
    /\ length d' <= length d
    /\ incl (keys d') (map (target select f) (keys d))
    /\ incl (values d') (values d).
Proof.
  intros Hwf.
  destruct (move_loop_total select f (keys d) d) as (d' & Hd' & Hwf' & Hv); auto.
  { intros k Hk. apply mem_In. exact Hk. }
  destruct (move_loop_bounds (keys d) d d') as [Hlen Hkeys]; auto.
  { intros k Hk. apply mem_In. exact Hk. }
  exists d'. repeat split; auto.
  intros x Hx. destruct (Hkeys x Hx) as [H|[H1 H2]]; [exact H|contradiction].
Qed.

End Bounds.

(** X8.  On every mapping the two passes of [convert_vae] end without an
    exception, clashes or not.  The result has no key twice and at most as
    many entries as the input; each of its keys is the final key of a key
    of the input, and each of its values is a value of the input. *)
Theorem remap_keys_never_raises :
  forall (V : Type) (state_dict : dict V),
    well_formed state_dict = true ->
    exists d',
      remap_keys state_dict = Ok d'
      /\ well_formed d' = true
      /\ length d' <= length state_dict
      /\ incl (keys d') (map final_key (keys state_dict))
      /\ incl (values d') (values state_dict).
Proof.
  intros V d Hwf. unfold remap_keys, rename_pass, special_pass.
  rewrite rename_loop_move.
  destruct (pass_bounds (fun _ => true) rename_key d Hwf)
    as (d1 & -> & Hwf1 & Hl1 & Hk1 & Hv1).
  cbn [bind]. rewrite special_loop_move.
  destruct (pass_bounds (contains "qkv.conv.weight") (replace "qkv.conv" "to_qkv") d1 Hwf1)
    as (d2 & -> & Hwf2 & Hl2 & Hk2 & Hv2).
  exists d2. split; [reflexivity|]. split; [exact Hwf2|]. split; [lia|].
  split; [|eapply incl_tran; eauto].
  intros x Hx. apply Hk2 in Hx. apply in_map_iff in Hx as (y & <- & Hy).
  apply Hk1 in Hy. apply in_map_iff in Hy as (z & <- & Hz).
  apply in_map_iff. exists z. split; [reflexivity|exact Hz].
Qed.

Lemma remap_keys_never_raises_witness :
  exists d',
    remap_keys [("main.norm.x", 1); ("norm.norm.x", 2)] = Ok d'
    /\ well_formed d' = true
    /\ length d' <= length [("main.norm.x", 1); ("norm.norm.x", 2)]
    /\ incl (keys d') (map final_key (keys [("main.norm.x", 1); ("norm.norm.x", 2)]))
    /\ incl (values d') (values [("main.norm.x", 1); ("norm.norm.x", 2)]).
Proof.
  apply (@remap_keys_never_raises nat). reflexivity.
Defined.

(** X9.  The order of the entries after the two passes, when no entry
    lands on a key that is in the mapping at that moment: first the entries
    whose renamed key does not contain "qkv.conv.weight", in the order of
    the input, then the others, in the order of the input, each under its
    final key. *)
Theorem remap_keys_order :
  forall (V : Type) (state_dict : dict V),
    well_formed state_dict = true ->
    no_clash rename_key [] (keys state_dict) = true ->
    no_clash special_key [] (map rename_key (keys state_dict)) = true ->
    remap_keys state_dict
    = Ok (map (fun kv => (final_key (fst kv), snd kv))
              (filter (fun kv => negb (contains "qkv.conv.weight" (rename_key (fst kv))))
                      state_dict
               ++ filter (fun kv => contains "qkv.conv.weight" (rename_key (fst kv)))
                         state_dict)).
Proof.
  intros V d Hwf H1 H2. unfold remap_keys.
  rewrite (rename_pass_shape d Hwf H1). cbn [bind].
  set (d1 := map (fun kv => (rename_key (fst kv), snd kv)) d).
  assert (Hk1 : keys d1 = map rename_key (keys d)).
  { unfold d1, keys. rewrite !map_map. reflexivity. }
  assert (Hwf1 : well_formed d1 = true).
  { destruct (pass_bounds (fun _ => true) rename_key d Hwf) as (x & Hx & Hwfx & _).
    rewrite <- rename_loop_move in Hx. fold (rename_pass d) in Hx.
    rewrite (rename_pass_shape d Hwf H1) in Hx. injection Hx as <-. exact Hwfx. }
  rewrite special_pass_shape; [|exact Hwf1|rewrite Hk1; exact H2].
  f_equal. unfold stays, moved, d1. rewrite map_app. f_equal; clear.
  - induction d as [|[k v] d IH]; [reflexivity|].
    cbn [map filter fst snd]. rewrite IH.
    destruct (contains "qkv.conv.weight" (rename_key k)) eqn:E; cbn [negb map fst snd];
      [reflexivity|].
    unfold final_key, special_key. rewrite E. reflexivity.
  - induction d as [|[k v] d IH]; [reflexivity|].
    cbn [map filter fst snd]. 
    destruct (contains "qkv.conv.weight" (rename_key k)) eqn:E; cbn [map fst snd];
      rewrite IH; [|reflexivity].
    unfold final_key, special_key. rewrite E. reflexivity.
Qed.

Lemma remap_keys_order_witness :
  remap_keys [("a.qkv.conv.weight", 1); ("encoder.project_in.conv.weight", 2);
              ("b.qkv.conv.weight", 3); ("decoder.norm.bias", 4)]
  = Ok (map (fun kv => (final_key (fst kv), snd kv))
            (filter (fun kv => negb (contains "qkv.conv.weight" (rename_key (fst kv))))
                    [("a.qkv.conv.weight", 1); ("encoder.project_in.conv.weight", 2);
                     ("b.qkv.conv.weight", 3); ("decoder.norm.bias", 4)]
             ++ filter (fun kv => contains "qkv.conv.weight" (rename_key (fst kv)))
                       [("a.qkv.conv.weight", 1); ("encoder.project_in.conv.weight", 2);
                        ("b.qkv.conv.weight", 3); ("decoder.norm.bias", 4)])).
Proof.
  apply (@remap_keys_order nat); reflexivity.
Defined.

Lemma no_clash_fixed (g : string -> string) (todo : list string) : forall done,
  (forall k, In k todo -> g k = k) ->
  distinct todo = true ->
  (forall x, In x done -> ~ In x todo) ->
  no_clash g done todo = true.
Proof.
  induction todo as [|k rest IH]; intros done Hg Hd Hdone; [reflexivity|].
  cbn [no_clash distinct] in *. apply andb_true_iff in Hd as [Hk Hd].
  rewrite (Hg k (or_introl eq_refl)).
  rewrite !andb_true_iff, !negb_true_iff. repeat split.
  - apply mem_false. intros H. apply (Hdone k H). left. reflexivity.
  - apply negb_true_iff. exact Hk.
  - apply IH; auto.
    + intros k' Hk'. apply Hg. right. exact Hk'.
    + intros x [<-|Hx] Hin.
      * apply negb_true_iff, mem_false in Hk. auto.
      * apply (Hdone x Hx). right. exact Hin.
Qed.

Lemma untouched_fixed (key : string) :
  untouched key = true ->
  rename_key key = key /\ special_key key = key.
Proof.
  unfold untouched. rewrite andb_true_iff, negb_true_iff. intros [H1 H2]. split.
  - apply RenameFacts.apply_rules_absent. rewrite forallb_forall in H1.
    apply Forall_forall. intros r Hr. apply negb_true_iff. auto.
  - unfold special_key. rewrite H2. reflexivity.
Qed.

(** X10.  Keys in which no pattern of the rename table occurs, and not
    "qkv.conv.weight", are left alone: a mapping all of whose keys are such
    comes out of the two passes as it went in, entry for entry, in the same
    order. *)
Theorem remap_keys_untouched :
  forall (V : Type) (state_dict : dict V),
    well_formed state_dict = true ->
    forallb untouched (keys state_dict) = true ->
    remap_keys state_dict = Ok state_dict.
Proof.
  intros V d Hwf Hu. rewrite forallb_forall in Hu.
  assert (Hr : forall k, In k (keys d) -> rename_key k = k).
  { intros k Hk. apply untouched_fixed. auto. }
  assert (Hs : forall k, In k (keys d) -> special_key k = k).
  { intros k Hk. apply untouched_fixed. auto. }
  assert (E1 : map (fun kv : string * V => (rename_key (fst kv), snd kv)) d = d).
  { rewrite <- (map_id d) at 2. apply map_ext_in. intros [k v] Hin. cbn [fst snd].
    rewrite Hr; [reflexivity|]. apply in_map_iff. exists (k, v). auto. }
  unfold remap_keys. rewrite rename_pass_shape; [|exact Hwf|].
  2:{ apply no_clash_fixed; auto. }
  cbn [bind]. rewrite E1. rewrite special_pass_shape; [|exact Hwf|].
  2:{ apply no_clash_fixed; auto. }
  f_equal. unfold stays, moved.
  assert (Hsel : forall kv, In kv d -> contains "qkv.conv.weight" (fst kv) = false).
  { intros [k v] Hin. cbn [fst].
    assert (Hk : In k (keys d)) by (apply in_map_iff; exists (k, v); auto).
    specialize (Hu k Hk). unfold untouched in Hu.
    apply andb_true_iff in Hu as [_ Hu]. apply negb_true_iff. exact Hu. }
  clear - Hsel. induction d as [|kv d IH]; [reflexivity|].
  cbn [filter]. rewrite (Hsel kv (or_introl eq_refl)). cbn [negb app].
  f_equal. apply IH. intros x Hx. apply Hsel. right. exact Hx.
Qed.

Lemma remap_keys_untouched_witness :
  remap_keys [("encoder.conv_in.weight", 1); ("encoder.conv_in.bias", 2)]
  = Ok [("encoder.conv_in.weight", 1); ("encoder.conv_in.bias", 2)].
Proof.
  apply (@remap_keys_untouched nat); reflexivity.
Defined.

End PassMore.

(** ** The presets and the command line, continued *)

Module ScriptMore.

Import Cli.

Ltac check_fields :=
  repeat split;
  repeat (apply Forall_cons || apply Forall_nil);
  first [reflexivity | left; reflexivity | right; reflexivity].

(** X11.  In every configuration [get_vae_config] returns, the entries
    that have one item per block agree in length: the block types, output
    channels, layers per block and multiscales of encoder and decoder, and
    the decoder norm types and activations where the configuration has
    them.  That length is 6, 7 or 8, and the configuration has a
    "latent_channels" entry. *)
Theorem get_vae_config_per_block :
  forall (name : string) (config : dict pyval),
    get_vae_config name = Ok config ->
    exists n,
      In n [6; 7; 8]
      /\ Forall (fun k => field_length k config = Some n) per_block_fields
      /\ Forall (fun k => contains_key k config = false \/ field_length k config = Some n)
                optional_per_block_fields
      /\ contains_key "latent_channels" config = true.
Proof.
  intros name config. unfold get_vae_config.
  repeat match goal with
         | |- context [if mem name ?l then _ else _] => destruct (mem name l)
         end; intros [= <-].
  - exists 6. split; [simpl; auto|]. check_fields.
  - exists 6. split; [simpl; auto|]. check_fields.
  - exists 8. split; [simpl; auto|]. check_fields.
  - exists 7. split; [simpl; auto|]. check_fields.
Qed.

Lemma get_vae_config_per_block_witness :
  exists n,
    In n [6; 7; 8]
    /\ Forall (fun k => field_length k config_f64c128 = Some n) per_block_fields
    /\ Forall (fun k => contains_key k config_f64c128 = false
                        \/ field_length k config_f64c128 = Some n)
              optional_per_block_fields
    /\ contains_key "latent_channels" config_f64c128 = true.
Proof.
  apply (get_vae_config_per_block "dc-ae-f64c128-mix-1.0"). reflexivity.
Defined.

(** X12.  The script looks the [--dtype] argument up in both tables before
    anything else: a value other than "fp32", "fp16", "bf16" raises
    [KeyError], with or without a checkpoint path, whatever the checkpoint
    holds.  The two tables have the same keys.  Without a checkpoint path
    nothing is converted or saved.  A model that is saved is the one loaded
    from the converted mapping of the file at the checkpoint path; it is
    saved at the output path, in the dtype of the table, with no variant for
    "fp32" and the name of the dtype as variant otherwise. *)
Theorem main_dtype_and_variant :
  forall (T M : Type) (load_file : string -> result (dict (value T)))
         (load_state_dict : Sana.dtype -> dict (value T) -> option M) (a : args),
    keys DTYPE_MAPPING = keys VARIANT_MAPPING
    /\ (contains_key (dtype a) DTYPE_MAPPING = false ->
        main load_file load_state_dict a = Raised (KeyError (dtype a)))
    /\ (contains_key (dtype a) DTYPE_MAPPING = true ->
        vae_ckpt_path a = None ->
        main load_file load_state_dict a = NothingToDo)
    /\ (forall s,
           main load_file load_state_dict a = Saved s ->
           path s = output_path a
           /\ lookup (dtype a) DTYPE_MAPPING = Some (torch_dtype s)
           /\ variant s = (if String.eqb (dtype a) "fp32" then None else Some (dtype a))
           /\ exists ckpt_path loaded original_state_dict,
               vae_ckpt_path a = Some ckpt_path
               /\ load_file ckpt_path = Ok loaded
               /\ convert_vae loaded = Ok original_state_dict
               /\ load_state_dict (torch_dtype s) original_state_dict = Some (vae s)).
Proof.
  intros T M load_file load_state_dict [ckpt out dt].
  cbn [dtype vae_ckpt_path output_path].
  split; [reflexivity|]. unfold main. cbn [dtype vae_ckpt_path output_path].
  unfold contains_key, getitem, DTYPE_MAPPING, VARIANT_MAPPING. cbn [lookup].
  destruct (String.eqb dt "fp32") eqn:E1;
    [|destruct (String.eqb dt "fp16") eqn:E2;
      [|destruct (String.eqb dt "bf16") eqn:E3]];
    (split; [intros H; try discriminate; reflexivity|]);
    (split; [intros H1 H2; try discriminate; subst; reflexivity|]);
    intros s Hs; try discriminate;
    (destruct ckpt as [p|]; [|discriminate]);
    (destruct (load_file p) as [loaded|e] eqn:El; [|discriminate]);
    cbn [bind] in Hs;
    (destruct (convert_vae loaded) as [sd|e] eqn:Ec; [|discriminate]);
    match type of Hs with
    | context [load_state_dict ?d sd] =>
        destruct (load_state_dict d sd) as [m|] eqn:Em; [|discriminate]
    end;
    injection Hs as <-; cbn [path torch_dtype variant vae];
    repeat split; try (exists p, loaded, sd; repeat split; assumption).
  - apply String.eqb_eq in E2. congruence.
  - apply String.eqb_eq in E3. congruence.
Qed.

Lemma main_dtype_and_variant_witness :
  main (M := nat)
       (fun _ => Ok [("model", Dict [("encoder.project_in.conv.weight", Tensor 1)])])
       (fun _ _ => Some 0)
       {| vae_ckpt_path := Some "dc-ae.safetensors"; output_path := "out"; dtype := "fp8" |}
  = Raised (KeyError "fp8").
Proof.
  refine (proj1 (proj2 (main_dtype_and_variant nat nat
            (fun _ => Ok [("model", Dict [("encoder.project_in.conv.weight", Tensor 1)])])
            (fun _ _ => Some 0)
            {| vae_ckpt_path := Some "dc-ae.safetensors"; output_path := "out";
               dtype := "fp8" |})) _).
  reflexivity.
Defined.

End ScriptMore.

(** ** The attention processors of a model *)

Module ProcessorFacts.

Import Processors.

(** Induction on a module with the property at hand for all its children. *)
Lemma nn_module_induction {P : Type} (Q : nn_module P -> Prop) :
  (forall proc children,
      Forall (fun nc => Q (snd nc)) children -> Q (NNModule proc children)) ->
  forall m, Q m.
Proof.
  intros step. fix IH 1. intros [proc children]. apply step.
  induction children as [|[n c] cs IHcs]; constructor; [apply IH|exact IHcs].
Qed.

Lemma distinct_app (l1 l2 : list string) :
  distinct (l1 ++ l2) = true <->
  distinct l1 = true /\ distinct l2 = true /\ (forall a, In a l1 -> ~ In a l2).
Proof.
  induction l1 as [|x l1 IH]; simpl.
  - split; [intros H; repeat split; auto|intros (_ & H & _); exact H].
  - rewrite !andb_true_iff, !negb_true_iff, mem_app, orb_false_iff, IH, !mem_false.
    split.
    + intros [[H1 H2] (H3 & H4 & H5)]. repeat split; auto.
      intros a [<-|Ha]; auto.
    + intros ((H1 & H2) & H3 & H4). repeat split; auto.
      all: try (intros a Ha; apply H4; right; exact Ha).
      all: intros Hx; apply (H4 x); [left; reflexivity|exact Hx].
Qed.

Section Dicts.
Context {V : Type}.
Implicit Types (d es acc : dict V) (k : string).

Lemma put_all_app es1 es2 acc :
  put_all (es1 ++ es2) acc = put_all es2 (put_all es1 acc).
Proof. apply fold_left_app. Qed.

(** Entries with keys that are new and distinct go to the end, in their
    order. *)
Lemma put_all_fresh es : forall acc,
  distinct (keys es) = true ->
  (forall k, In k (keys es) -> ~ In k (keys acc)) ->
  put_all es acc = acc ++ es.
Proof.
  induction es as [|[k v] es IH]; intros acc Hd Hf.
  - simpl. rewrite app_nil_r. reflexivity.
  - change (keys ((k, v) :: es)) with (k :: keys es) in *.
    cbn [distinct] in Hd. apply andb_true_iff in Hd as [Hk Hd].
    apply negb_true_iff, mem_false in Hk.
    unfold put_all. cbn [fold_left fst snd]. fold (put_all es (setitem k v acc)).
    rewrite setitem_fresh by (apply mem_false, Hf; left; reflexivity).
    rewrite IH; [rewrite <- app_assoc; reflexivity|exact Hd|].
    intros x Hx. rewrite keys_app. intros Hin.
    apply in_app_or in Hin as [Hin|[<-|[]]]; [|contradiction].
    apply (Hf x); [right; exact Hx|exact Hin].
Qed.

Lemma In_lookup es k (v : V) :
  distinct (keys es) = true -> In (k, v) es -> lookup k es = Some v.
Proof.
  induction es as [|[k' v'] es IH]; intros Hd Hin; [destruct Hin|].
  change (keys ((k', v') :: es)) with (k' :: keys es) in Hd.
  cbn [distinct] in Hd. apply andb_true_iff in Hd as [Hk Hd].
  apply negb_true_iff, mem_false in Hk. cbn [lookup].
  destruct Hin as [[= -> ->]|Hin].
  - rewrite String.eqb_refl. reflexivity.
  - destruct (String.eqb k k') eqn:E; [|auto].
    apply String.eqb_eq in E as ->. exfalso. apply Hk.
    apply in_map_iff. exists (k', v). auto.
Qed.

Lemma keys_of_without (ks : list string) d :
  keys (without ks d) = filter (fun k => negb (mem k ks)) (keys d).
Proof.
  unfold without, keys. induction d as [|[k v] d IH]; simpl; [reflexivity|].
  destruct (mem k ks); simpl; rewrite IH; reflexivity.
Qed.

Lemma distinct_filter (p : string -> bool) (l : list string) :
  distinct l = true -> distinct (filter p l) = true.
Proof.
  rewrite !distinct_NoDup. apply NoDup_filter.
Qed.

Lemma well_formed_without (ks : list string) d :
  well_formed d = true -> well_formed (without ks d) = true.
Proof.
  unfold well_formed. rewrite keys_of_without. apply distinct_filter.
Qed.

Lemma lookup_without_keys (ks : list string) d k :
  lookup k (without ks d) = if mem k ks then None else lookup k d.
Proof.
  unfold without. induction d as [|[k' v'] d IH]; simpl.
  - destruct (mem k ks); reflexivity.
  - destruct (mem k' ks) eqn:E; simpl.
    + rewrite IH. destruct (String.eqb k k') eqn:E'; [|reflexivity].
      apply String.eqb_eq in E' as ->. rewrite E. reflexivity.
    + destruct (String.eqb k k') eqn:E'; [|exact IH].
      apply String.eqb_eq in E' as ->. rewrite E. reflexivity.
Qed.

Lemma mem_without (ks : list string) d k :
  mem k (keys (without ks d)) = negb (mem k ks) && mem k (keys d).
Proof.
  rewrite <- !contains_key_mem. unfold contains_key. rewrite lookup_without_keys.
  destruct (mem k ks); reflexivity.
Qed.

Lemma without_app (ks1 ks2 : list string) d :
  without (ks1 ++ ks2) d = without ks2 (without ks1 d).
Proof.
  unfold without. induction d as [|[k v] d IH]; simpl; [reflexivity|].
  rewrite mem_app. destruct (mem k ks1); simpl; [exact IH|].
  destruct (mem k ks2); simpl; rewrite IH; reflexivity.
Qed.

Lemma without_nil d : without [] d = d.
Proof.
  unfold without. induction d as [|kv d IH]; [reflexivity|].
  cbn [filter mem negb]. f_equal. exact IH.
Qed.

(** [pop] on a well-formed dictionary. *)
Lemma pop_without k d (v : V) :
  well_formed d = true -> lookup k d = Some v ->
  pop k d = Ok (v, without [k] d).
Proof.
  intros Hwf Hlk. destruct (lookup_split _ _ _ Hlk) as (N & R & -> & HkN).
  destruct (well_formed_split _ _ _ _ Hwf) as (_ & HkR & _).
  rewrite pop_app by exact HkN. do 2 f_equal.
  unfold without. rewrite filter_app. cbn [filter fst mem].
  rewrite String.eqb_refl. cbn [orb negb].
  assert (F : forall l : dict V, mem k (keys l) = false ->
               filter (fun kv => negb (mem (fst kv) [k])) l = l).
  { intros l H. apply forallb_filter_id, forallb_forall. intros [k' v'] Hin.
    cbn [fst mem]. rewrite orb_false_r. apply negb_true_iff, String.eqb_neq.
    intros ->. apply mem_false in H. apply H, in_map_iff. exists (k, v'). auto. }
  rewrite !F by assumption. reflexivity.
Qed.

Lemma length_without_one k d :
  well_formed d = true -> mem k (keys d) = true ->
  S (length (without [k] d)) = length d.
Proof.
  intros Hwf Hm. rewrite <- contains_key_mem in Hm. unfold contains_key in Hm.
  destruct (lookup k d) as [v|] eqn:Hlk; [|discriminate].
  pose proof (pop_without _ _ _ Hwf Hlk) as Hp.
  destruct (pop_inv _ _ _ _ Hp) as (N & R & -> & E & _).
  rewrite E, !length_app. cbn [length]. lia.
Qed.

(** Taking out distinct keys that are all there shortens the dictionary by
    their number. *)
Lemma length_without (ks : list string) : forall d,
  well_formed d = true -> distinct ks = true ->
  (forall k, In k ks -> mem k (keys d) = true) ->
  length (without ks d) + length ks = length d.
Proof.
  induction ks as [|k ks IH]; intros d Hwf Hd Hall.
  - rewrite without_nil. simpl. lia.
  - cbn [distinct] in Hd. apply andb_true_iff in Hd as [Hk Hd].
    apply negb_true_iff in Hk.
    change (k :: ks) with ([k] ++ ks). rewrite without_app.
    rewrite <- (length_without_one k d Hwf (Hall k (or_introl eq_refl))).
    rewrite <- (IH (without [k] d)); [simpl; lia| |exact Hd|].
    + apply well_formed_without. exact Hwf.
    + intros x Hx. rewrite mem_without. cbn [mem]. rewrite orb_false_r.
      rewrite (Hall x (or_intror Hx)), andb_true_r. apply negb_true_iff.
      apply String.eqb_neq. intros ->. apply mem_false in Hk. auto.
Qed.

End Dicts.

Section Trees.
Context {P : Type}.
Implicit Types (m self : nn_module P) (cs : list (string * nn_module P)).

(** The entries of a list of children whose names are made by [pre]. *)
Local Abbreviation entries_under pre cs :=
  (flat_map (fun nc : string * nn_module P =>
               match nc with (sub_name, child) => entries (pre sub_name) child end) cs).

Lemma add_entries m : forall name (acc : dict P),
  fn_recursive_add_processors name m acc = put_all (entries name m) acc.
Proof.
  induction m as [proc children IH] using nn_module_induction. intros name acc.
  cbn [fn_recursive_add_processors entries]. rewrite put_all_app.
  replace (put_all match proc with
                   | Some p => [((name ++ ".processor")%string, p)]
                   | None => []
                   end acc)
    with (match proc with
          | Some p => setitem (name ++ ".processor")%string p acc
          | None => acc
          end) by (destruct proc; reflexivity).
  generalize (match proc with
              | Some p => setitem (name ++ ".processor")%string p acc
              | None => acc
              end).
  induction IH as [|[n c] cs Hc _ IHcs]; intros a; [reflexivity|].
  cbn [fold_left flat_map]. rewrite put_all_app. cbn [snd] in Hc. rewrite Hc.
  apply IHcs.
Qed.

Lemma attn_processors_entries self :
  attn_processors self = put_all (entries_of_children (named_children self)) [].
Proof.
  unfold attn_processors, entries_of_children. generalize (@nil (string * P)).
  induction (named_children self) as [|[n c] cs IH]; intros acc; [reflexivity|].
  cbn [fold_left flat_map]. rewrite put_all_app, add_entries. apply IH.
Qed.

(** With distinct paths, [attn_processors] lists the attention layers in
    the order of the tree. *)
Lemma attn_processors_distinct self :
  distinct_paths self = true ->
  attn_processors self = entries_of_children (named_children self).
Proof.
  intros H. rewrite attn_processors_entries.
  rewrite put_all_fresh; [reflexivity|exact H|]. intros k _ [].
Qed.

(** *** One processor for all *)

Lemma setitem_const (p : P) (k : string) (v : P) (acc : dict P) :
  setitem k p (map (fun kv => (fst kv, p)) acc)
  = map (fun kv => (fst kv, p)) (setitem k v acc).
Proof.
  induction acc as [|[k' v'] acc IH]; simpl; [reflexivity|].
  destruct (String.eqb k k'); simpl; [reflexivity|]. rewrite IH. reflexivity.
Qed.

Lemma put_all_const (p : P) (es : dict P) : forall acc : dict P,
  put_all (map (fun kv => (fst kv, p)) es) (map (fun kv => (fst kv, p)) acc)
  = map (fun kv => (fst kv, p)) (put_all es acc).
Proof.
  induction es as [|[k v] es IH]; intros acc; [reflexivity|].
  unfold put_all. cbn [map fold_left fst snd].
  rewrite (setitem_const p k v). apply IH.
Qed.

Lemma entries_fill (p : P) m : forall name,
  entries name (fill p m) = map (fun kv => (fst kv, p)) (entries name m).
Proof.
  induction m as [proc children IH] using nn_module_induction. intros name.
  cbn [fill entries]. rewrite map_app. f_equal; [destruct proc; reflexivity|].
  induction IH as [|[n c] cs Hc _ IHcs]; [reflexivity|].
  cbn [map flat_map]. rewrite map_app. cbn [snd] in Hc. rewrite Hc, IHcs.
  reflexivity.
Qed.

Lemma single_recursion (p : P) m : forall name,
  fn_recursive_attn_processor name m (Single p) = Ok (fill p m, Single p).
Proof.
  induction m as [proc children IH] using nn_module_induction. intros name.
  cbn [fn_recursive_attn_processor fill].
  assert (E : forall pre,
             over_children
               (fun sub_name child processor =>
                  fn_recursive_attn_processor (pre sub_name) child processor)
               children (Single p)
             = Ok (map (fun nc : string * nn_module P =>
                          match nc with (sub_name, child) => (sub_name, fill p child) end)
                       children, Single p)).
  { intros pre. induction IH as [|[n c] cs Hc _ IHcs]; [reflexivity|].
    cbn [over_children map]. cbn [snd] in Hc. rewrite Hc. cbn [bind].
    rewrite IHcs. reflexivity. }
  destruct proc; cbn [bind]; rewrite (E (fun s => (name ++ "." ++ s)%string));
    reflexivity.
Qed.

Lemma single_children (p : P) cs :
  over_children fn_recursive_attn_processor cs (Single p)
  = Ok (map (fun nc : string * nn_module P =>
               match nc with (name, module) => (name, fill p module) end) cs,
        Single p).
Proof.
  induction cs as [|[n c] cs IH]; [reflexivity|].
  cbn [over_children map]. rewrite single_recursion. cbn [bind]. rewrite IH.
  reflexivity.
Qed.

Lemma entries_of_filled (p : P) cs :
  entries_of_children
    (map (fun nc : string * nn_module P =>
            match nc with (name, module) => (name, fill p module) end) cs)
  = map (fun kv => (fst kv, p)) (entries_of_children cs).
Proof.
  unfold entries_of_children. induction cs as [|[n c] cs IH]; [reflexivity|].
  cbn [map flat_map]. rewrite map_app, entries_fill, IH. reflexivity.
Qed.

(** *** A dictionary of processors *)

Lemma mem_lookup (d : dict P) (k : string) :
  mem k (keys d) = true -> exists v, lookup k d = Some v.
Proof.
  rewrite <- contains_key_mem. unfold contains_key.
  destruct (lookup k d) as [v|]; [eauto|discriminate].
Qed.

Lemma mapping_children cs :
  Forall (fun nc => forall name, takes_from_mapping (fun _ => name) [("", snd nc)]) cs ->
  forall pre, takes_from_mapping pre cs.
Proof.
  intros H pre. induction H as [|[n c] cs Hc _ IHcs]; intros d Hwf Hd Hall.
  - exists []. cbn [flat_map keys map]. rewrite without_nil.
    repeat split; auto. intros k v [].
  - cbn [flat_map] in *. rewrite keys_app in *.
    apply distinct_app in Hd as (D1 & D2 & Dx).
    cbn [snd] in Hc. specialize (Hc (pre n) d Hwf).
    cbn [flat_map] in Hc. rewrite !app_nil_r in Hc.
    destruct Hc as (c1 & E1 & K1 & L1 & I1); [exact D1| |].
    { intros k Hk. apply Hall, in_or_app. left. exact Hk. }
    cbn [over_children] in E1.
    destruct (fn_recursive_attn_processor (pre n) c (Mapping d)) as [[c' s']|e] eqn:Ec;
      [|discriminate].
    cbn [bind] in E1. injection E1 as <- ->.
    destruct (IHcs (without (keys (entries (pre n) c)) d)) as (cs' & E2 & K2 & L2 & I2).
    { apply well_formed_without. exact Hwf. }
    { exact D2. }
    { intros k Hk. rewrite mem_without.
      rewrite (Hall k) by (apply in_or_app; right; exact Hk).
      rewrite andb_true_r. apply negb_true_iff, mem_false.
      intros Hk1. apply (Dx k Hk1 Hk). }
    exists ((n, c') :: cs'). cbn [over_children flat_map]. rewrite Ec. cbn [bind].
    rewrite E2. cbn [bind]. rewrite without_app. split; [reflexivity|].
    cbn [flat_map] in K1, L1. rewrite !app_nil_r in K1, L1.
    split; [rewrite !keys_app, K1, K2; reflexivity|]. split.
    + intros k v Hin. apply in_app_or in Hin as [Hin|Hin]; [apply L1; exact Hin|].
      specialize (L2 k v Hin). rewrite lookup_without_keys in L2.
      destruct (mem k (keys (entries (pre n) c))); [discriminate|exact L2].
    + intros Hag. rewrite I2.
      * assert (Hc' : [(String.EmptyString, c')] = [(String.EmptyString, c)]).
        { apply I1. intros k v Hin. apply Hag, in_or_app. left. exact Hin. }
        injection Hc' as ->. reflexivity.
      * intros k v Hin. rewrite lookup_without_keys.
        assert (Hk : In k (keys (entries_under pre cs))).
        { apply in_map_iff. exists (k, v). auto. }
        replace (mem k (keys (entries (pre n) c))) with false.
        -- apply Hag, in_or_app. right. exact Hin.
        -- symmetry. apply mem_false. intros Hk1. apply (Dx k Hk1 Hk).
Qed.

Lemma mapping_module m :
  forall name, takes_from_mapping (fun _ => name) [("", m)].
Proof.
  induction m as [proc children IH] using nn_module_induction.
  intros name d Hwf Hd Hall.
  pose proof (mapping_children children IH (fun s => (name ++ "." ++ s)%string)) as Hcs.
  cbn [flat_map entries] in *. rewrite !app_nil_r in *.
  destruct proc as [p0|]; cbn [app] in *.
  - change (keys ((name ++ ".processor", p0)
                    :: entries_under (fun s => name ++ "." ++ s) children))%string
      with ((name ++ ".processor")%string
              :: keys (entries_under (fun s => (name ++ "." ++ s)%string) children)) in *.
    cbn [distinct] in Hd. apply andb_true_iff in Hd as [Hk Hd].
    apply negb_true_iff in Hk.
    destruct (mem_lookup d (name ++ ".processor")%string (Hall _ (or_introl eq_refl)))
      as [v Hv].
    destruct (Hcs (without [(name ++ ".processor")%string] d)) as (cs' & E & K & L & I).
    { apply well_formed_without. exact Hwf. }
    { exact Hd. }
    { intros k Hin. rewrite mem_without. rewrite (Hall k (or_intror Hin)), andb_true_r.
      cbn [mem]. rewrite orb_false_r. apply negb_true_iff, String.eqb_neq.
      intros ->. apply mem_false in Hk. auto. }
    assert (E0 : fn_recursive_attn_processor name (NNModule (Some p0) children) (Mapping d)
                 = Ok (NNModule (Some v) cs',
                       Mapping (without
                                  ((name ++ ".processor")%string
                                     :: keys (entries_under
                                                (fun s => (name ++ "." ++ s)%string) children))
                                  d))).
    { cbn [fn_recursive_attn_processor]. rewrite (pop_without _ _ _ Hwf Hv). cbn [bind].
      rewrite E. cbn [bind]. rewrite <- without_app. reflexivity. }
    exists [(String.EmptyString, NNModule (Some v) cs')].
    split; [cbn [over_children]; rewrite E0; reflexivity|].
    cbn [flat_map entries]. rewrite !app_nil_r. cbn [app].
    split; [|split].
    + unfold keys in K |- *. cbn [map fst]. rewrite K. reflexivity.
    + intros k w [[= <- <-]|Hin]; [exact Hv|].
      specialize (L k w Hin). rewrite lookup_without_keys in L.
      destruct (mem k [(name ++ ".processor")%string]); [discriminate|exact L].
    + intros Hag. rewrite I.
      * specialize (Hag _ _ (or_introl eq_refl)). rewrite Hv in Hag.
        injection Hag as ->. reflexivity.
      * intros k w Hin. rewrite lookup_without_keys. cbn [mem]. rewrite orb_false_r.
        replace (String.eqb k (name ++ ".processor")) with false.
        -- apply Hag. right. exact Hin.
        -- symmetry. apply String.eqb_neq. intros ->. apply mem_false in Hk.
           apply Hk, in_map_iff. exists ((name ++ ".processor")%string, w). auto.
  - destruct (Hcs d Hwf Hd Hall) as (cs' & E & K & L & I).
    assert (E0 : fn_recursive_attn_processor name (NNModule None children) (Mapping d)
                 = Ok (NNModule None cs',
                       Mapping (without
                                  (keys (entries_under
                                           (fun s => (name ++ "." ++ s)%string) children))
                                  d))).
    { cbn [fn_recursive_attn_processor bind]. rewrite E. reflexivity. }
    exists [(String.EmptyString, NNModule None cs')].
    split; [cbn [over_children]; rewrite E0; reflexivity|].
    cbn [flat_map entries]. rewrite !app_nil_r. cbn [app].
    split; [exact K|]. split; [exact L|].
    intros Hag. rewrite (I Hag). reflexivity.
Qed.

(** The children of the model itself, which go under their own names. *)
Lemma mapping_top cs (d : dict P) :
  well_formed d = true ->
  distinct (keys (entries_of_children cs)) = true ->
  (forall k, In k (keys (entries_of_children cs)) -> mem k (keys d) = true) ->
  exists cs',
    over_children fn_recursive_attn_processor cs (Mapping d)
    = Ok (cs', Mapping (without (keys (entries_of_children cs)) d))
    /\ keys (entries_of_children cs') = keys (entries_of_children cs)
    /\ (forall k v, In (k, v) (entries_of_children cs') -> lookup k d = Some v)
    /\ ((forall k v, In (k, v) (entries_of_children cs) -> lookup k d = Some v) ->
        cs' = cs).
Proof.
  assert (H : takes_from_mapping (fun s => s) cs).
  { apply mapping_children. apply Forall_forall. intros nc _. apply mapping_module. }
  exact (H d).
Qed.

Lemma first_missing_app (A B : list string) (d : dict P) :
  first_missing (A ++ B) d
  = match first_missing A d with
    | Some x => Some x
    | None => first_missing B d
    end.
Proof.
  unfold first_missing. induction A as [|a A IH]; [reflexivity|].
  cbn [app find]. destruct (negb (mem a (keys d))); [reflexivity|exact IH].
Qed.

Lemma first_missing_none (A : list string) (d : dict P) :
  first_missing A d = None -> forall k, In k A -> mem k (keys d) = true.
Proof.
  unfold first_missing. intros H k Hk.
  pose proof (find_none _ _ H k Hk) as Hn. apply negb_false_iff in Hn. exact Hn.
Qed.

Lemma first_missing_without (A B : list string) (d : dict P) :
  (forall k, In k B -> ~ In k A) ->
  first_missing B (without A d) = first_missing B d.
Proof.
  unfold first_missing. induction B as [|b B IH]; intros H; [reflexivity|].
  cbn [find]. rewrite mem_without.
  replace (mem b A) with false
    by (symmetry; apply mem_false, H; left; reflexivity).
  cbn [negb andb]. rewrite IH; [reflexivity|].
  intros k Hk. apply H. right. exact Hk.
Qed.

Lemma missing_children cs :
  Forall (fun nc => forall name, stops_at_missing (fun _ => name) [("", snd nc)]) cs ->
  forall pre, stops_at_missing pre cs.
Proof.
  intros H pre. induction H as [|[n c] cs Hc _ IHcs]; intros d k Hwf Hd Hm.
  - discriminate.
  - cbn [flat_map] in *. rewrite keys_app in *.
    apply distinct_app in Hd as (D1 & D2 & Dx).
    rewrite first_missing_app in Hm. cbn [snd] in Hc. cbn [over_children].
    destruct (first_missing (keys (entries (pre n) c)) d) as [x|] eqn:E1.
    + injection Hm as ->. specialize (Hc (pre n) d k Hwf).
      cbn [flat_map over_children] in Hc. rewrite app_nil_r in Hc.
      specialize (Hc D1 E1).
      destruct (fn_recursive_attn_processor (pre n) c (Mapping d)) as [[c' s']|e];
        cbn [bind] in Hc |- *; [discriminate|exact Hc].
    + pose proof (mapping_module c (pre n) d Hwf) as Hs.
      cbn [flat_map over_children] in Hs. rewrite !app_nil_r in Hs.
      destruct Hs as (c1 & E & _); [exact D1|apply first_missing_none; exact E1|].
      destruct (fn_recursive_attn_processor (pre n) c (Mapping d)) as [[c' s']|e];
        cbn [bind] in E; [|discriminate].
      injection E as _ ->. cbn [bind].
      rewrite (IHcs (without (keys (entries (pre n) c)) d) k); [reflexivity| | |].
      * apply well_formed_without. exact Hwf.
      * exact D2.
      * rewrite first_missing_without; [exact Hm|].
        intros x Hx Hx1. apply (Dx x Hx1 Hx).
Qed.

Lemma missing_module m :
  forall name, stops_at_missing (fun _ => name) [("", m)].
Proof.
  induction m as [proc children IH] using nn_module_induction.
  intros name d k Hwf Hd Hm.
  pose proof (missing_children children IH (fun s => (name ++ "." ++ s)%string)) as Hcs.
  cbn [flat_map entries] in *. rewrite !app_nil_r in *.
  cbn [over_children fn_recursive_attn_processor].
  destruct proc as [p0|]; cbn [app] in *.
  - unfold keys in Hd, Hm. cbn [map fst] in Hd, Hm.
    fold (keys (entries_under (fun s => (name ++ "." ++ s)%string) children)) in Hd, Hm.
    cbn [distinct] in Hd. apply andb_true_iff in Hd as [Hk Hd].
    apply negb_true_iff in Hk. unfold first_missing in Hm. cbn [find] in Hm.
    fold (keys d) in Hm.
    destruct (mem (name ++ ".processor") (keys d)) eqn:Hin; cbn [negb] in Hm.
    + destruct (mem_lookup d _ Hin) as [v Hv].
      rewrite (pop_without _ _ _ Hwf Hv). cbn [bind].
      rewrite (Hcs (without [(name ++ ".processor")%string] d) k); [reflexivity| | |].
      * apply well_formed_without. exact Hwf.
      * exact Hd.
      * rewrite first_missing_without; [exact Hm|].
        intros x Hx [<-|[]]. apply mem_false in Hk. auto.
    + injection Hm as <-. rewrite (pop_absent _ _ Hin). reflexivity.
  - cbn [bind]. rewrite (Hcs d k Hwf Hd Hm). reflexivity.
Qed.

Lemma missing_top cs (d : dict P) (k : string) :
  well_formed d = true ->
  distinct (keys (entries_of_children cs)) = true ->
  first_missing (keys (entries_of_children cs)) d = Some k ->
  over_children fn_recursive_attn_processor cs (Mapping d) = Raise (KeyError k).
Proof.
  assert (H : stops_at_missing (fun s => s) cs).
  { apply missing_children. apply Forall_forall. intros nc _. apply missing_module. }
  exact (H d k).
Qed.

End Trees.

(** X13.  [attn_processors] has one entry for each attention layer below
    the model, under the path of the layer followed by ".processor", in the
    order of the tree (a layer before the layers below it, children in
    their order), when no two layers have the same path. *)
Theorem attn_processors_lists_layers :
  forall (P : Type) (self : nn_module P),
    distinct_paths self = true ->
    attn_processors self = entries_of_children (named_children self)
    /\ well_formed (attn_processors self) = true.
Proof.
  intros P self H. rewrite (attn_processors_distinct self H). split; [reflexivity|exact H].
Qed.

Lemma attn_processors_lists_layers_witness :
  attn_processors
    (NNModule None
       [("transformer_blocks",
          NNModule None
            [("0", NNModule None [("attn1", NNModule (Some 1) []);
                                  ("attn2", NNModule (Some 2) [("to_q", NNModule None [])]);
                                  ("ff", NNModule None [])])])])
  = entries_of_children
      (named_children
         (NNModule None
            [("transformer_blocks",
               NNModule None
                 [("0", NNModule None [("attn1", NNModule (Some 1) []);
                                       ("attn2", NNModule (Some 2) [("to_q", NNModule None [])]);
                                       ("ff", NNModule None [])])])]))
  /\ well_formed
       (attn_processors
          (NNModule None
             [("transformer_blocks",
                NNModule None
                  [("0", NNModule None [("attn1", NNModule (Some 1) []);
                                        ("attn2", NNModule (Some 2) [("to_q", NNModule None [])]);
                                        ("ff", NNModule None [])])])]))
     = true.
Proof.
  apply (@attn_processors_lists_layers nat). reflexivity.
Defined.

(** X14.  [set_attn_processor] with one processor never fails.  It puts
    that processor in every attention layer below the model and changes
    nothing else: [attn_processors] has the keys it had, in their order,
    each with the new processor. *)
Theorem set_attn_processor_single :
  forall (P : Type) (self : nn_module P) (p : P),
    set_attn_processor self (Single p)
    = Done (NNModule (processor self)
              (map (fun nc : string * nn_module P =>
                      match nc with (name, module) => (name, fill p module) end)
                   (named_children self)),
            Single p)
    /\ attn_processors
         (NNModule (processor self)
            (map (fun nc : string * nn_module P =>
                    match nc with (name, module) => (name, fill p module) end)
                 (named_children self)))
       = map (fun kv => (fst kv, p)) (attn_processors self).
Proof.
  intros P self p. split.
  - unfold set_attn_processor. rewrite single_children. reflexivity.
  - rewrite !attn_processors_entries. cbn [named_children].
    rewrite entries_of_filled. apply (put_all_const p _ []).
Qed.

Lemma length_keys {V : Type} (d : dict V) : length (keys d) = length d.
Proof. apply length_map. Qed.

Lemma root_eta {P : Type} (self : nn_module P) :
  NNModule (processor self) (named_children self) = self.
Proof. destruct self; reflexivity. Qed.

(** X15.  [set_attn_processor] with a dictionary that has exactly the keys
    of [attn_processors] succeeds: afterwards [attn_processors] has the same
    keys in the same order and under each key the processor the dictionary
    had there, and the dictionary that was passed is empty (every entry has
    been popped out of it). *)
Theorem set_attn_processor_mapping :
  forall (P : Type) (self : nn_module P) (d : dict P),
    distinct_paths self = true ->
    well_formed d = true ->
    length d = length (attn_processors self) ->
    (forall k, In k (keys (attn_processors self)) -> contains_key k d = true) ->
    exists self',
      set_attn_processor self (Mapping d) = Done (self', Mapping [])
      /\ processor self' = processor self
      /\ keys (attn_processors self') = keys (attn_processors self)
      /\ forall k, lookup k (attn_processors self') = lookup k d.
Proof.
  intros P self d Hp Hwf Hlen Hall.
  rewrite (attn_processors_distinct self Hp) in *.
  set (es := entries_of_children (named_children self)) in *.
  destruct (mapping_top (named_children self) d Hwf Hp) as (cs' & E & K & L & _).
  { intros k Hk. rewrite <- contains_key_mem. apply Hall. exact Hk. }
  fold es in E, K.
  assert (Hrest : without (keys es) d = []).
  { apply length_zero_iff_nil.
    pose proof (length_without (keys es) d Hwf Hp) as Hl.
    rewrite length_keys in Hl. rewrite <- Hlen in Hl.
    assert (forall k, In k (keys es) -> mem k (keys d) = true) as Hm.
    { intros k Hk. rewrite <- contains_key_mem. apply Hall. exact Hk. }
    specialize (Hl Hm). lia. }
  assert (Hp' : distinct_paths (NNModule (processor self) cs') = true).
  { unfold distinct_paths. cbn [named_children]. rewrite K. exact Hp. }
  exists (NNModule (processor self) cs'). split; [|split; [reflexivity|split]].
  - unfold set_attn_processor. rewrite (attn_processors_distinct self Hp). fold es.
    rewrite length_keys, Hlen, Nat.eqb_refl. cbn [negb]. rewrite E, Hrest. reflexivity.
  - rewrite (attn_processors_distinct _ Hp'). cbn [named_children]. exact K.
  - intros k. rewrite (attn_processors_distinct _ Hp'). cbn [named_children].
    destruct (mem k (keys (entries_of_children cs'))) eqn:Hk.
    + apply mem_In, in_map_iff in Hk as ([k' v] & <- & Hin). cbn [fst].
      rewrite (L k' v Hin). apply In_lookup; [rewrite K; exact Hp|exact Hin].
    + pose proof Hk as Hk'. apply lookup_None in Hk'. rewrite Hk'.
      assert (Hn : lookup k (without (keys es) d) = None) by (rewrite Hrest; reflexivity).
      rewrite lookup_without_keys, <- K, Hk in Hn. symmetry. exact Hn.
Qed.

Lemma set_attn_processor_mapping_witness :
  exists self',
    set_attn_processor
      (NNModule None [("blocks", NNModule None [("attn1", NNModule (Some 1) []);
                                                ("attn2", NNModule (Some 2) [])])])
      (Mapping [("blocks.attn2.processor", 7); ("blocks.attn1.processor", 8)])
    = Done (self', Mapping [])
    /\ processor self' = None
    /\ keys (attn_processors self')
       = keys (attn_processors
                 (NNModule None [("blocks", NNModule None [("attn1", NNModule (Some 1) []);
                                                           ("attn2", NNModule (Some 2) [])])]))
    /\ forall k, lookup k (attn_processors self')
                 = lookup k [("blocks.attn2.processor", 7); ("blocks.attn1.processor", 8)].
Proof.
  apply (@set_attn_processor_mapping nat
           (NNModule None [("blocks", NNModule None [("attn1", NNModule (Some 1) []);
                                                     ("attn2", NNModule (Some 2) [])])])
           [("blocks.attn2.processor", 7); ("blocks.attn1.processor", 8)]);
    try reflexivity.
  intros k [<-|[<-|[]]]; reflexivity.
Defined.

(** X16.  Giving a model the processors it reports is a round trip: with
    distinct paths, [set_attn_processor(attn_processors)] leaves the model
    as it is, and leaves the dictionary it was given empty. *)
Theorem set_attn_processor_round_trip :
  forall (P : Type) (self : nn_module P),
    distinct_paths self = true ->
    set_attn_processor self (Mapping (attn_processors self)) = Done (self, Mapping []).
Proof.
  intros P self Hp. unfold set_attn_processor.
  rewrite length_keys, Nat.eqb_refl. cbn [negb].
  rewrite (attn_processors_distinct self Hp).
  set (es := entries_of_children (named_children self)).
  destruct (mapping_top (named_children self) es Hp Hp) as (cs' & E & _ & _ & I).
  { intros k Hk. apply mem_In. exact Hk. }
  fold es in E. rewrite E. rewrite I.
  - rewrite root_eta. do 3 f_equal. apply length_zero_iff_nil.
    pose proof (length_without (keys es) es Hp Hp) as Hl.
    rewrite length_keys in Hl.
    assert (forall k, In k (keys es) -> mem k (keys es) = true) as Hm
        by (intros k Hk; apply mem_In; exact Hk).
    specialize (Hl Hm). lia.
  - intros k v Hin. apply In_lookup; [exact Hp|exact Hin].
Qed.

Lemma set_attn_processor_round_trip_witness :
  set_attn_processor
    (NNModule None [("blocks", NNModule None [("attn1", NNModule (Some 1) []);
                                              ("attn2", NNModule (Some 2) [])])])
    (Mapping (attn_processors
                (NNModule None [("blocks", NNModule None [("attn1", NNModule (Some 1) []);
                                                          ("attn2", NNModule (Some 2) [])])])))
  = Done (NNModule None [("blocks", NNModule None [("attn1", NNModule (Some 1) []);
                                                   ("attn2", NNModule (Some 2) [])])],
          Mapping []).
Proof.
  apply (@set_attn_processor_round_trip nat). reflexivity.
Defined.

(** X17.  How [set_attn_processor] fails on a dictionary.  A dictionary
    whose length is not the number of attention layers raises [ValueError],
    whatever its keys.  A dictionary of the right length that lacks the path
    of a layer raises [KeyError] for the first such path in the order of the
    tree. *)
Theorem set_attn_processor_errors :
  forall (P : Type) (self : nn_module P) (d : dict P),
    distinct_paths self = true ->
    well_formed d = true ->
    (length d <> length (attn_processors self) ->
     set_attn_processor self (Mapping d)
     = ValueError (length d) (length (attn_processors self)))
    /\ (length d = length (attn_processors self) ->
        forall k,
          first_missing (keys (attn_processors self)) d = Some k ->
          set_attn_processor self (Mapping d) = Failed (KeyError k)).
Proof.
  intros P self d Hp Hwf. unfold set_attn_processor. rewrite length_keys. split.
  - intros Hne. apply Nat.eqb_neq in Hne. rewrite Hne. reflexivity.
  - intros He k Hm. rewrite He, Nat.eqb_refl. cbn [negb].
    rewrite (attn_processors_distinct self Hp) in Hm.
    rewrite (missing_top _ d k Hwf Hp Hm). reflexivity.
Qed.

Lemma set_attn_processor_errors_witness :
  set_attn_processor
    (NNModule None [("blocks", NNModule None [("attn1", NNModule (Some 1) []);
                                              ("attn2", NNModule (Some 2) [])])])
    (Mapping [("blocks.attn1.processor", 7); ("blocks.attn2", 8)])
  = Failed (KeyError "blocks.attn2.processor").
Proof.
  refine (proj2 (@set_attn_processor_errors nat
                   (NNModule None [("blocks", NNModule None [("attn1", NNModule (Some 1) []);
                                                             ("attn2", NNModule (Some 2) [])])])
                   [("blocks.attn1.processor", 7); ("blocks.attn2", 8)] _ _) _ _ _);
    reflexivity.
Defined.

End ProcessorFacts.

(** ** Tensor layout *)

Module LayoutFacts.

Import Layout.

Local Open Scope nat_scope.

Lemma ravel_lt (size index : list nat) :
  in_range size index = true -> ravel size index < numel size.
Proof.
  revert index. induction size as [|n size IH]; intros [|i index] H;
    try discriminate; cbn [ravel numel fold_right] in *.
  - lia.
  - apply andb_true_iff in H as [Hi H]. apply Nat.ltb_lt in Hi.
    specialize (IH _ H). fold (numel size) in *. nia.
Qed.

Lemma unravel_ravel (size index : list nat) :
  in_range size index = true -> unravel size (ravel size index) = index.
Proof.
  revert index. induction size as [|n size IH]; intros [|i index] H;
    try discriminate; cbn [ravel unravel] in *.
  - reflexivity.
  - apply andb_true_iff in H as [Hi H].
    pose proof (ravel_lt _ _ H) as Hr.
    f_equal.
    + symmetry. apply (Nat.div_unique _ _ _ (ravel size index)); [exact Hr|lia].
    + rewrite <- (IH _ H) at 2. f_equal.
      symmetry. apply (Nat.mod_unique _ _ i); [exact Hr|lia].
Qed.

Lemma get_in_range {E : Type} (t : tensor_nd E) (index : list nat) :
  in_range (size t) index = true ->
  get t index = Some (flat t (ravel (size t) index)).
Proof. intros H. unfold get. rewrite H. reflexivity. Qed.

(** [reshape] with one [-1], the known extents multiplying to a positive
    divisor of the number of elements. *)
Lemma infer_size_one (shape : list extent) (n q : nat) :
  infer_dims shape = 1 -> 0 < newsize shape -> n = q * newsize shape ->
  infer_size shape n
  = Some (map (fun e => match e with Dim d => d | Infer => q end) shape).
Proof.
  intros H1 Hk ->. unfold infer_size. rewrite H1.
  rewrite Nat.Div0.mod_mul, Nat.div_mul by lia.
  apply Nat.ltb_lt in Hk as Hk'. rewrite Hk', Nat.eqb_refl. cbn [andb].
  rewrite orb_true_r.
  destruct (newsize shape =? 0) eqn:Hz; [apply Nat.eqb_eq in Hz; lia|reflexivity].
Qed.

(** [reshape] with one [-1] and a known extent that is zero raises. *)
Lemma infer_size_zero (shape : list extent) (n : nat) :
  infer_dims shape = 1 -> newsize shape = 0 -> infer_size shape n = None.
Proof.
  intros H1 Hz. unfold infer_size. rewrite H1, Hz. cbn [Nat.eqb Nat.ltb Nat.leb andb].
  destruct (n =? 0); reflexivity.
Qed.

Lemma infer_size_all (shape : list extent) (n : nat) :
  infer_dims shape = 0 ->
  infer_size shape n
  = if n =? newsize shape
    then Some (map (fun e => match e with Dim d => d | Infer => 0 end) shape)
    else None.
Proof. intros H0. unfold infer_size. rewrite H0. reflexivity. Qed.

(** *** Unpatchify *)

(** The tensor [unpatchify] returns. *)
Lemma unpatchify_result {E : Type} (B h w p C : nat) (hidden_states : tensor_nd E) :
  size hidden_states = [B; h * w; p * p * C] ->
  0 < B -> 0 < h -> 0 < w -> 0 < p ->
  unpatchify B h w p hidden_states
  = Some {| size := [B; C; h * p; w * p];
            flat := fun k =>
              let index' := unravel [B; C; h; p; w; p] k in
              flat hidden_states
                (ravel [B; h; w; p; p; C]
                   (map (fun d => nth (index_of d [0; 5; 1; 3; 2; 4]) index' 0)
                        (seq 0 6))) |}.
Proof.
  intros Hs HB Hh Hw Hp. unfold unpatchify, reshape. rewrite Hs.
  rewrite (infer_size_one _ _ C); [| reflexivity | cbn; nia | cbn; ring ].
  cbn [map]. unfold permute. cbn [size length Nat.eqb forallb Nat.ltb Nat.leb distinct_dims
                                   existsb negb andb orb map nth].
  cbn [size flat].
  rewrite (infer_size_one _ _ C); [| reflexivity | cbn; nia | cbn; ring ].
  reflexivity.
Qed.

Lemma div_mod_lt (y h p : nat) : 0 < p -> y < h * p -> y / p < h /\ y mod p < p.
Proof.
  intros Hp Hy. split.
  - apply Nat.Div0.div_lt_upper_bound. lia.
  - apply Nat.mod_upper_bound. lia.
Qed.

(** X18.  [unpatchify] puts the patches back as an image.  For projected
    tokens of size [(B, h * w, p * p * C)], the result has size
    [(B, C, h * p, w * p)], and its element at channel [c], row [y] and
    column [x] is that of the token of patch row [y // p] and patch column
    [x // p], at position [((y % p) * p + x % p) * C + c]: the features of
    a token are read as [p] rows of [p] pixels of [C] channels. *)
Theorem unpatchify_places_patches :
  forall (E : Type) (B h w p C : nat) (hidden_states : tensor_nd E),
    size hidden_states = [B; h * w; p * p * C] ->
    0 < B -> 0 < h -> 0 < w -> 0 < p ->
    exists output,
      unpatchify B h w p hidden_states = Some output
      /\ size output = [B; C; h * p; w * p]
      /\ forall b c y x,
           b < B -> c < C -> y < h * p -> x < w * p ->
           exists e,
             get output [b; c; y; x] = Some e
             /\ get hidden_states
                  [b; (y / p) * w + x / p; ((y mod p) * p + x mod p) * C + c]
                = Some e.
Proof.
  intros E B h w p C hs Hs HB Hh Hw Hp.
  eexists. split; [apply (unpatchify_result B h w p C hs Hs HB Hh Hw Hp)|].
  split; [reflexivity|].
  intros b c y x Hb Hc Hy Hx.
  destruct (div_mod_lt y h p Hp Hy) as [Hi Hr].
  destruct (div_mod_lt x w p Hp Hx) as [Hj Hs'].
  pose proof (Nat.div_mod_eq y p) as Ey. pose proof (Nat.div_mod_eq x p) as Ex.
  set (i := y / p) in *. set (r := y mod p) in *.
  set (j := x / p) in *. set (s := x mod p) in *.
  clearbody i r j s.
  assert (Hn : i * w + j < h * w) by nia.
  assert (Hm : r * p + s < p * p) by nia.
  assert (Hd : (r * p + s) * C + c < p * p * C).
  { remember (r * p + s) as m. remember (p * p) as q. nia. }
  eexists. split.
  - rewrite get_in_range.
    2:{ cbn [size in_range].
        repeat (apply andb_true_iff; split); try apply Nat.ltb_lt; auto. }
    cbn [size flat].
    replace (ravel [B; C; h * p; w * p] [b; c; y; x])
      with (ravel [B; C; h; p; w; p] [b; c; i; r; j; s])
      by (cbn [ravel numel fold_right]; rewrite Ey, Ex; ring).
    cbv zeta. rewrite unravel_ravel.
    2:{ cbn [in_range].
        repeat (apply andb_true_iff; split); try apply Nat.ltb_lt; auto. }
    cbn [seq map index_of Nat.eqb nth]. reflexivity.
  - rewrite get_in_range.
    2:{ rewrite Hs. cbn [in_range].
        repeat (apply andb_true_iff; split); try apply Nat.ltb_lt; auto. }
    rewrite Hs. f_equal. f_equal. cbn [ravel numel fold_right]. ring.
Qed.

Lemma unpatchify_places_patches_witness :
  exists output,
    unpatchify 1 1 2 2
      {| size := [1; 1 * 2; 2 * 2 * 1]; flat := fun k => k |} = Some output
    /\ size output = [1; 1; 1 * 2; 2 * 2]
    /\ forall b c y x,
         b < 1 -> c < 1 -> y < 1 * 2 -> x < 2 * 2 ->
         exists e,
           get output [b; c; y; x] = Some e
           /\ get {| size := [1; 1 * 2; 2 * 2 * 1]; flat := fun k => k |}
                [b; (y / 2) * 2 + x / 2; ((y mod 2) * 2 + x mod 2) * 1 + c]
              = Some e.
Proof.
  apply (unpatchify_places_patches nat 1 1 2 2 1
           {| size := [1; 1 * 2; 2 * 2 * 1]; flat := fun k => k |});
    [reflexivity | lia | lia | lia | lia].
Defined.

(** X19.  The size of the output of [forward] against the size of its
    input.  For an input of size [(B, _, H, W)] with a patch size [p] that is
    at most [H] and [W], the sizes of "1. Input" are [H // p] and [W // p],
    and "5. Unpatchify" turns projected tokens of size
    [(B, (H // p) * (W // p), p * p * C)] into an output of size
    [(B, C, (H // p) * p, (W // p) * p)]: the height and width of the input
    rounded down to multiples of the patch size, and so those of the input
    exactly when the patch size divides both. *)
Theorem output_size :
  forall (E : Type) (p B H W C : nat) (projected : tensor_nd E),
    0 < p -> 0 < B -> p <= H -> p <= W ->
    size projected = [B; (H / p) * (W / p); p * p * C] ->
    exists post_patch_height post_patch_width out,
      floordiv H p = Some post_patch_height
      /\ floordiv W p = Some post_patch_width
      /\ unpatchify B post_patch_height post_patch_width p projected = Some out
      /\ size out = [B; C; (H / p) * p; (W / p) * p]
      /\ (H / p) * p <= H /\ (W / p) * p <= W
      /\ (size out = [B; C; H; W] <-> H mod p = 0 /\ W mod p = 0).
Proof.
  intros E p B H W C projected Hp HB HH HW Hs.
  exists (H / p), (W / p). unfold floordiv.
  destruct (p =? 0) eqn:Hp0; [apply Nat.eqb_eq in Hp0; lia|].
  assert (0 < H / p) by (apply Nat.div_str_pos; lia).
  assert (0 < W / p) by (apply Nat.div_str_pos; lia).
  rewrite (unpatchify_result B (H / p) (W / p) p C projected Hs) by assumption.
  eexists. split; [reflexivity|]. split; [reflexivity|]. split; [reflexivity|].
  cbn [size]. split; [reflexivity|].
  pose proof (Nat.div_mod_eq H p) as EH. pose proof (Nat.div_mod_eq W p) as EW.
  split; [lia|]. split; [lia|]. split.
  - intros [= E1 E2]. lia.
  - intros [E1 E2]. repeat f_equal; lia.
Qed.

(** An input of height 5 and width 4, in patches of 2 by 2. *)
Lemma output_size_witness :
  exists post_patch_height post_patch_width out,
    floordiv 5 2 = Some post_patch_height
    /\ floordiv 4 2 = Some post_patch_width
    /\ unpatchify 1 post_patch_height post_patch_width 2
         {| size := [1; (5 / 2) * (4 / 2); 2 * 2 * 3]; flat := fun k => k |} = Some out
    /\ size out = [1; 3; (5 / 2) * 2; (4 / 2) * 2]
    /\ (5 / 2) * 2 <= 5 /\ (4 / 2) * 2 <= 4
    /\ (size out = [1; 3; 5; 4] <-> 5 mod 2 = 0 /\ 4 mod 2 = 0).
Proof.
  apply (output_size nat 2 1 5 4 3
           {| size := [1; (5 / 2) * (4 / 2); 2 * 2 * 3]; flat := fun k => k |});
    [lia | lia | lia | lia | reflexivity].
Defined.

End LayoutFacts.

(** ** SanaGLUMBConv *)

Module GLUMBConvFacts.

Import Layout GLUMBConv LayoutFacts.

Local Open Scope nat_scope.

Lemma to_image_result {E : Type} (B N C H W : nat) (hidden_states : tensor_nd E) :
  size hidden_states = [B; N; C] -> H * W = N ->
  to_image B H W C hidden_states
  = Some {| size := [B; C; H; W];
            flat := fun k =>
              let index' := unravel [B; C; H; W] k in
              flat hidden_states
                (ravel [B; H; W; C]
                   (map (fun d => nth (index_of d [0; 3; 1; 2]) index' 0) (seq 0 4))) |}.
Proof.
  intros Hs HN. unfold to_image, reshape. rewrite Hs, infer_size_all by reflexivity.
  replace (numel [B; N; C] =? newsize [Dim B; Dim H; Dim W; Dim C]) with true.
  2:{ symmetry. apply Nat.eqb_eq. cbn. rewrite <- HN. ring. }
  reflexivity.
Qed.

Lemma to_tokens_result {E : Type} (B C N : nat) (z : tensor_nd E) :
  numel (size z) = B * C * N ->
  to_tokens B C N z
  = Some {| size := [B; N; C];
            flat := fun k =>
              let index' := unravel [B; N; C] k in
              flat z
                (ravel [B; C; N]
                   (map (fun d => nth (index_of d [0; 2; 1]) index' 0) (seq 0 3))) |}.
Proof.
  intros Hn. unfold to_tokens, reshape. rewrite infer_size_all by reflexivity.
  replace (numel (size z) =? newsize [Dim B; Dim C; Dim N]) with true.
  2:{ symmetry. apply Nat.eqb_eq. rewrite Hn. cbn. ring. }
  reflexivity.
Qed.

Lemma to_tokens_raises {E : Type} (B C N : nat) (z : tensor_nd E) :
  numel (size z) <> B * C * N -> to_tokens B C N z = None.
Proof.
  intros Hn. unfold to_tokens, reshape. rewrite infer_size_all by reflexivity.
  replace (numel (size z) =? newsize [Dim B; Dim C; Dim N]) with false.
  2:{ symmetry. apply Nat.eqb_neq. cbn. intros Heq. apply Hn. rewrite Heq. ring. }
  reflexivity.
Qed.

Lemma to_image_raises {E : Type} (B N C H W : nat) (hidden_states : tensor_nd E) :
  size hidden_states = [B; N; C] -> H * W <> N -> B * C <> 0 ->
  to_image B H W C hidden_states = None.
Proof.
  intros Hs HN HBC. unfold to_image, reshape. rewrite Hs, infer_size_all by reflexivity.
  replace (numel [B; N; C] =? newsize [Dim B; Dim H; Dim W; Dim C]) with false.
  2:{ symmetry. apply Nat.eqb_neq. cbn. intros Heq. apply HN.
      assert (Hq : B * C * (H * W) = B * C * N).
      { transitivity (B * (H * (W * (C * 1)))); [ring|]. rewrite <- Heq. ring. }
      apply Nat.mul_cancel_l in Hq; auto. }
  reflexivity.
Qed.

(** X20.  The layout of [SanaGLUMBConv.forward], for tokens of size
    [(B, N, C)] and [HW = (H, W)].  When [H * W] is not [N] the call raises
    (but for an empty batch or no channels).  When it is, the convolutions
    see an image of size [(B, C, H, W)] in which token [y * W + x] is the
    pixel of row [y] and column [x]; when they give back as many elements
    as came in, of whatever size, the result has size [(B, N, C)], and
    otherwise the final [reshape] raises; and when they give back an image of
    size [(B, C, H, W)], token [n] of the result is its pixel of row
    [n // W] and column [n % W]. *)
Theorem forward_layout :
  forall (E : Type)
         (conv_inverted nonlinearity conv_depth conv_point : tensor_nd E -> option (tensor_nd E))
         (mul : tensor_nd E -> tensor_nd E -> option (tensor_nd E))
         (int_sqrt : nat -> nat)
         (hidden_states : tensor_nd E) (B N C H W : nat),
    size hidden_states = [B; N; C] ->
    (H * W <> N -> B * C <> 0 ->
     forward conv_inverted nonlinearity conv_depth conv_point mul int_sqrt
       hidden_states (Some (H, W)) = None)
    /\ (H * W = N ->
        exists image,
          to_image B H W C hidden_states = Some image
          /\ size image = [B; C; H; W]
          /\ (forall b c y x,
                b < B -> c < C -> y < H -> x < W ->
                exists e,
                  get image [b; c; y; x] = Some e
                  /\ get hidden_states [b; y * W + x; c] = Some e)
          /\ forall z,
               gated_convolution conv_inverted nonlinearity conv_depth conv_point mul image
               = Some z ->
               (numel (size z) <> B * C * N ->
                forward conv_inverted nonlinearity conv_depth conv_point mul int_sqrt
                  hidden_states (Some (H, W)) = None)
               /\ (numel (size z) = B * C * N ->
                   exists out,
                     forward conv_inverted nonlinearity conv_depth conv_point mul int_sqrt
                       hidden_states (Some (H, W)) = Some out
                     /\ size out = [B; N; C]
                     /\ (size z = [B; C; H; W] ->
                         forall b n c,
                           b < B -> n < N -> c < C ->
                           exists e,
                             get out [b; n; c] = Some e
                             /\ get z [b; c; n / W; n mod W] = Some e))).
Proof.
  intros E conv_inverted nonlinearity conv_depth conv_point mul int_sqrt hs B N C H W Hs.
  split.
  - intros HN HBC. unfold forward. rewrite Hs.
    rewrite (to_image_raises B N C H W hs Hs HN HBC). reflexivity.
  - intros HN. eexists. split; [apply (to_image_result B N C H W hs Hs HN)|].
    split; [reflexivity|]. split.
    + intros b c y x Hb Hc Hy Hx.
      assert (Hn : y * W + x < N) by nia.
      eexists. split.
      * rewrite get_in_range.
        2:{ cbn [size in_range].
            repeat (apply andb_true_iff; split); try apply Nat.ltb_lt; auto. }
        cbn [size flat]. cbv zeta. rewrite unravel_ravel.
        2:{ cbn [in_range].
            repeat (apply andb_true_iff; split); try apply Nat.ltb_lt; auto. }
        cbn [seq map index_of Nat.eqb nth]. reflexivity.
      * rewrite get_in_range.
        2:{ rewrite Hs. cbn [in_range].
            repeat (apply andb_true_iff; split); try apply Nat.ltb_lt; auto. }
        rewrite Hs. f_equal. f_equal. cbn [ravel numel fold_right].
        rewrite <- HN. ring.
    + intros z Hz. split.
      * intros Hne. unfold forward. rewrite Hs.
        rewrite (to_image_result B N C H W hs Hs HN), Hz.
        apply to_tokens_raises. exact Hne.
      * intros Hnum. eexists. split.
        { unfold forward. rewrite Hs.
          rewrite (to_image_result B N C H W hs Hs HN), Hz.
          apply to_tokens_result. exact Hnum. }
        split; [reflexivity|].
        intros Hsz b n c Hb Hn Hc.
        assert (HW : 0 < W) by nia.
        destruct (div_mod_lt n H W HW ltac:(lia)) as [Hy Hx].
        pose proof (Nat.div_mod_eq n W) as En.
        set (y := n / W) in *. set (x := n mod W) in *. clearbody y x.
        eexists. split.
        { rewrite get_in_range.
          2:{ cbn [size in_range].
              repeat (apply andb_true_iff; split); try apply Nat.ltb_lt; auto. }
          cbn [size flat]. cbv zeta. rewrite unravel_ravel.
          2:{ cbn [in_range].
              repeat (apply andb_true_iff; split); try apply Nat.ltb_lt; auto. }
          cbn [seq map index_of Nat.eqb nth]. reflexivity. }
        { rewrite get_in_range.
          2:{ rewrite Hsz. cbn [in_range].
              repeat (apply andb_true_iff; split); try apply Nat.ltb_lt; auto. }
          rewrite Hsz. f_equal. f_equal. cbn [ravel numel fold_right].
          rewrite En, <- HN. ring. }
Qed.

(** Four tokens of two channels on a grid of two by two; the convolutions
    doubling the channels, the rest the identity. *)
Lemma forward_layout_witness :
  (2 * 2 <> 4 -> 1 * 2 <> 0 ->
   forward (fun t => Some {| size := [1; 4; 2; 2]; flat := flat t |})
     (fun t => Some t) (fun t => Some t) (fun t => Some t) (fun t _ => Some t) (fun n => n)
     {| size := [1; 4; 2]; flat := fun k => k |} (Some (2, 2)) = None)
  /\ (2 * 2 = 4 ->
      exists image,
        to_image 1 2 2 2 {| size := [1; 4; 2]; flat := fun k => k |} = Some image
        /\ size image = [1; 2; 2; 2]
        /\ (forall b c y x,
              b < 1 -> c < 2 -> y < 2 -> x < 2 ->
              exists e,
                get image [b; c; y; x] = Some e
                /\ get {| size := [1; 4; 2]; flat := fun k => k |} [b; y * 2 + x; c] = Some e)
        /\ forall z,
             gated_convolution (fun t => Some {| size := [1; 4; 2; 2]; flat := flat t |})
               (fun t => Some t) (fun t => Some t) (fun t => Some t) (fun t _ => Some t) image
             = Some z ->
             (numel (size z) <> 1 * 2 * 4 ->
              forward (fun t => Some {| size := [1; 4; 2; 2]; flat := flat t |})
                (fun t => Some t) (fun t => Some t) (fun t => Some t) (fun t _ => Some t)
                (fun n => n)
                {| size := [1; 4; 2]; flat := fun k => k |} (Some (2, 2)) = None)
             /\ (numel (size z) = 1 * 2 * 4 ->
                 exists out,
                   forward (fun t => Some {| size := [1; 4; 2; 2]; flat := flat t |})
                     (fun t => Some t) (fun t => Some t) (fun t => Some t) (fun t _ => Some t)
                     (fun n => n)
                     {| size := [1; 4; 2]; flat := fun k => k |} (Some (2, 2)) = Some out
                   /\ size out = [1; 4; 2]
                   /\ (size z = [1; 2; 2; 2] ->
                       forall b n c,
                         b < 1 -> n < 4 -> c < 2 ->
                         exists e,
                           get out [b; n; c] = Some e
                           /\ get z [b; c; n / 2; n mod 2] = Some e))).
Proof.
  apply (forward_layout nat
           (fun t => Some {| size := [1; 4; 2; 2]; flat := flat t |})
           (fun t => Some t) (fun t => Some t) (fun t => Some t) (fun t _ => Some t)
           (fun n => n)
           {| size := [1; 4; 2]; flat := fun k => k |} 1 4 2 2 2).
  reflexivity.
Defined.

(** *** The two halves of the channels *)






End GLUMBConvFacts.

(** ** The blocks of the model *)

Module BlockFacts.

Import Sana Blocks.

(** X22.  A block built with [cross_attention_dim=None] cannot run: its
    [forward] raises [AttributeError] for [attn2] once the self attention is
    done, whatever it is given.  A block built with a cross attention
    dimension runs as [forward] with that cross attention.  In general
    [forward] returns only on a block that has both [attn2] and [norm2]. *)
Theorem forward_needs_cross_attention :
  forall (dt : dtype) (dim : nat)
         (LayerNorm1 Attention1 LayerNorm2 : tensor3 -> tensor3)
         (Attention2 : cross_attention_module)
         (SanaGLUMBConv : tensor3 -> option (nat * nat) -> tensor3)
         (table : tensor2)
         (hidden_states : tensor3)
         (attention_mask : option (tensor scalar))
         (encoder_hidden_states : option tensor3)
         (encoder_attention_mask : option (tensor scalar))
         (timestep : tensor2) (HW : option (nat * nat)),
    forward dt dim
      (init None LayerNorm1 Attention1 LayerNorm2 Attention2 SanaGLUMBConv table)
      hidden_states attention_mask encoder_hidden_states encoder_attention_mask
      timestep HW
    = Raises (AttributeError "attn2")
    /\ (forall cross_attention_dim : nat,
          forward dt dim
            (init (Some cross_attention_dim) LayerNorm1 Attention1 LayerNorm2 Attention2
               SanaGLUMBConv table)
            hidden_states attention_mask encoder_hidden_states encoder_attention_mask
            timestep HW
          = Returns
              (Sana.forward dt dim table LayerNorm1 Attention1 (Some Attention2)
                 LayerNorm2 SanaGLUMBConv hidden_states attention_mask
                 encoder_hidden_states encoder_attention_mask timestep HW))
    /\ (forall (self : block) (output : tensor3),
          forward dt dim self hidden_states attention_mask encoder_hidden_states
            encoder_attention_mask timestep HW
          = Returns output ->
          attn2 self <> None /\ norm2 self <> None).
Proof.
  intros. split; [reflexivity|]. split; [reflexivity|].
  intros self output. unfold forward.
  destruct (attn2 self); [|discriminate].
  destruct (norm2 self); [|discriminate].
  intros _. split; discriminate.
Qed.

Lemma run_blocks_mask (dt : dtype) (dim : nat) (blocks : list block)
  (hidden_states : tensor3) (m m' : option (tensor scalar))
  (encoder_hidden_states : option tensor3)
  (encoder_attention_mask : option (tensor scalar))
  (timestep : tensor2) (HW : option (nat * nat)) :
  run_blocks dt dim blocks hidden_states m encoder_hidden_states
    encoder_attention_mask timestep HW
  = run_blocks dt dim blocks hidden_states m' encoder_hidden_states
      encoder_attention_mask timestep HW.
Proof.
  revert hidden_states. induction blocks as [|block blocks IH]; intros hidden_states.
  - reflexivity.
  - cbn [run_blocks].
    change (forward dt dim block hidden_states m encoder_hidden_states
              encoder_attention_mask timestep HW)
      with (forward dt dim block hidden_states m' encoder_hidden_states
              encoder_attention_mask timestep HW).
    destruct (forward dt dim block hidden_states m' encoder_hidden_states
                encoder_attention_mask timestep HW); [apply IH|reflexivity].
Qed.

(** X23.  The blocks of the model never use [attention_mask]: the hidden
    states after the blocks (or the error they raise) are the same for any
    two attention masks, of any rank, and for none.  With no blocks the
    hidden states come back as they are, and a model built with
    [cross_attention_dim=None] and at least one layer raises
    [AttributeError] in its first block. *)
Theorem forward_blocks_ignore_attention_mask :
  forall (dt : dtype) (dim : nat) (blocks : list block)
         (hidden_states : tensor3) (encoder_hidden_states : option tensor3)
         (timestep : tensor2)
         (encoder_attention_mask attention_mask attention_mask' : option (tensor scalar))
         (HW : option (nat * nat)),
    forward_blocks dt dim blocks hidden_states encoder_hidden_states timestep
      encoder_attention_mask attention_mask HW
    = forward_blocks dt dim blocks hidden_states encoder_hidden_states timestep
        encoder_attention_mask attention_mask' HW
    /\ forward_blocks dt dim [] hidden_states encoder_hidden_states timestep
         encoder_attention_mask attention_mask HW
       = Returns hidden_states
    /\ forall (num_layers : nat)
              (LayerNorm1 Attention1 LayerNorm2 : nat -> tensor3 -> tensor3)
              (Attention2 : nat -> cross_attention_module)
              (SanaGLUMBConv : nat -> tensor3 -> option (nat * nat) -> tensor3)
              (table : nat -> tensor2),
         forward_blocks dt dim
           (transformer_blocks (S num_layers) None LayerNorm1 Attention1 LayerNorm2
              Attention2 SanaGLUMBConv table)
           hidden_states encoder_hidden_states timestep
           encoder_attention_mask attention_mask HW
         = Raises (AttributeError "attn2").
Proof.
  intros. unfold forward_blocks, forward_masks. repeat split.
  apply run_blocks_mask.
Qed.

End BlockFacts.
